(** * Cloud sync of the Genshin Wish Export: a shallow embedding

    The embedding follows the Electron main-process module that talks to a
    Google Apps Script endpoint (the cloud-sync module: hashing, transport,
    metadata comparison, local backups, upload and download, IPC handlers),
    the Apps Script endpoint itself ([GOOGLE_APPS_SCRIPT.gs]) and the legacy
    OAuth module.

    Modelling conventions.
    - JavaScript values that travel as JSON are [jval]; [JUndef] is
      [undefined].  Objects are association lists in property enumeration
      order; numbers are integers ([Z]); strings are byte strings (UTF-8).
    - A thrown exception is [Err] carrying the error's name and message.
    - The client's effects (configuration, backup directory, collaborators,
      remote endpoint) are explicit state passing in a state/exception monad;
      a [trace] records the observable effects in order. *)

From Stdlib Require Import String Ascii List ZArith Bool Lia Arith.
From Stdlib Require Import Decimal DecimalZ DecimalPos Sorting.Permutation.
From Stdlib Require Import Sorting.Sorted Structures.OrderedTypeEx.
Import ListNotations.
Local Set Warnings "-register-all".


Local Open Scope string_scope.
Local Open Scope list_scope.
Local Open Scope Z_scope.

(* ------------------------------------------------------------------ *)
(** ** Exceptions and results *)

Record exn := Exn { ex_name : string; ex_msg : string }.

Inductive res (A : Type) : Type :=
| Ok (a : A)
| Err (e : exn).
Arguments Ok {A} a.
Arguments Err {A} e.

Definition Error (msg : string) : exn := Exn "Error" msg.
Definition TypeError (msg : string) : exn := Exn "TypeError" msg.
Definition SyntaxError (msg : string) : exn := Exn "SyntaxError" msg.

(** [e.toString()] of an Error object. *)
Definition exn_to_string (e : exn) : string :=
  append (ex_name e) (append ": " (ex_msg e)).

(* ------------------------------------------------------------------ *)
(** ** JavaScript / JSON values *)

Inductive jval : Type :=
| JUndef
| JNull
| JBool (b : bool)
| JNum (n : Z)
| JStr (s : string)
| JArr (l : list jval)
| JObj (l : list (string * jval)).

Section jval_rect'.
Variable P : jval -> Prop.
Hypothesis HUndef : P JUndef.
Hypothesis HNull : P JNull.
Hypothesis HBool : forall b, P (JBool b).
Hypothesis HNum : forall n, P (JNum n).
Hypothesis HStr : forall s, P (JStr s).
Hypothesis HArr : forall l, Forall P l -> P (JArr l).
Hypothesis HObj : forall l, Forall (fun kv => P (snd kv)) l -> P (JObj l).

Fixpoint jval_ind' (v : jval) : P v :=
  match v with
  | JUndef => HUndef
  | JNull => HNull
  | JBool b => HBool b
  | JNum n => HNum n
  | JStr s => HStr s
  | JArr l =>
      HArr l ((fix go (l : list jval) : Forall P l :=
                 match l with
                 | [] => Forall_nil _
                 | x :: t => Forall_cons _ (jval_ind' x) (go t)
                 end) l)
  | JObj l =>
      HObj l ((fix go (l : list (string * jval)) :
                 Forall (fun kv => P (snd kv)) l :=
                 match l with
                 | [] => Forall_nil _
                 | kv :: t => Forall_cons _ (jval_ind' (snd kv)) (go t)
                 end) l)
  end.
End jval_rect'.

(** Truthiness ([if (v)], [!v], [&&], [||]). *)
Definition truthy (v : jval) : bool :=
  match v with
  | JUndef | JNull => false
  | JBool b => b
  | JNum n => negb (n =? 0)
  | JStr s => negb (String.eqb s EmptyString)
  | JArr _ | JObj _ => true
  end.

Definition js_and (a b : jval) : jval := if truthy a then b else a.
Definition js_or (a b : jval) : jval := if truthy a then a else b.

Fixpoint assoc_get (k : string) (l : list (string * jval)) : option jval :=
  match l with
  | [] => None
  | (k', v) :: t => if String.eqb k k' then Some v else assoc_get k t
  end.

(** Property read [v.k]: reading a property of [null] or [undefined] throws
    a TypeError; arrays and strings only expose [length] here (index
    properties are not read by the code). *)
Definition js_get (v : jval) (k : string) : res jval :=
  match v with
  | JUndef | JNull =>
      Err (TypeError (append "Cannot read properties of null or undefined (reading '"
                        (append k "')")))
  | JObj l => Ok (match assoc_get k l with Some x => x | None => JUndef end)
  | JArr l => Ok (if String.eqb k "length" then JNum (Z.of_nat (List.length l)) else JUndef)
  | JStr s => Ok (if String.eqb k "length" then JNum (Z.of_nat (String.length s)) else JUndef)
  | _ => Ok JUndef
  end.

(** Property write [obj.k = x]: an existing own property keeps its position,
    a new one is appended.  On arrays a named property is not serialised and
    on primitives (sloppy mode) the write is lost, so both are no-ops here;
    on [null]/[undefined] it throws. *)
Fixpoint assoc_set (k : string) (x : jval) (l : list (string * jval))
  : list (string * jval) :=
  match l with
  | [] => [(k, x)]
  | (k', v) :: t => if String.eqb k k' then (k', x) :: t else (k', v) :: assoc_set k x t
  end.

Definition js_set (v : jval) (k : string) (x : jval) : res jval :=
  match v with
  | JUndef | JNull =>
      Err (TypeError (append "Cannot set properties of null or undefined (setting '"
                        (append k "')")))
  | JObj l => Ok (JObj (assoc_set k x l))
  | _ => Ok v
  end.

Definition is_array (v : jval) : bool :=
  match v with JArr _ => true | _ => false end.

(** Decimal text of an integer (Number.prototype.toString on integers). *)
Definition digit_char (d : nat) : ascii := ascii_of_nat (48 + d).

Fixpoint uint_chars (u : uint) : list ascii :=
  match u with
  | Nil => []
  | D0 u => digit_char 0 :: uint_chars u
  | D1 u => digit_char 1 :: uint_chars u
  | D2 u => digit_char 2 :: uint_chars u
  | D3 u => digit_char 3 :: uint_chars u
  | D4 u => digit_char 4 :: uint_chars u
  | D5 u => digit_char 5 :: uint_chars u
  | D6 u => digit_char 6 :: uint_chars u
  | D7 u => digit_char 7 :: uint_chars u
  | D8 u => digit_char 8 :: uint_chars u
  | D9 u => digit_char 9 :: uint_chars u
  end.

Definition z_chars (z : Z) : list ascii :=
  match Z.to_int z with
  | Pos u => uint_chars u
  | Neg u => "-"%char :: uint_chars u
  end.

Definition z_to_string (z : Z) : string := string_of_list_ascii (z_chars z).

(** [String(v)] on the values the code stringifies. *)
Fixpoint js_to_string (v : jval) : string :=
  match v with
  | JUndef => "undefined"
  | JNull => "null"
  | JBool true => "true"
  | JBool false => "false"
  | JNum n => z_to_string n
  | JStr s => s
  | JArr l =>
      String.concat ","
        (map (fun x => match x with JUndef | JNull => EmptyString | _ => js_to_string x end) l)
  | JObj _ => "[object Object]"
  end.

(** [new Error(m).message]: an undefined argument gives the empty message. *)
Definition error_message_of (v : jval) : string :=
  match v with JUndef => EmptyString | _ => js_to_string v end.

(** [ToNumber] of a string: an optionally signed decimal integer, or the empty
    string (0), surrounded by blanks; anything else is NaN ([None]).
    Non-integral numbers are outside the model. *)
Definition is_digit (c : ascii) : bool :=
  (48 <=? nat_of_ascii c)%nat && (nat_of_ascii c <=? 57)%nat.

Definition is_ws (c : ascii) : bool :=
  let n := nat_of_ascii c in
  (n =? 32)%nat || (n =? 9)%nat || (n =? 10)%nat || (n =? 13)%nat.

Fixpoint skip_ws (l : list ascii) : list ascii :=
  match l with
  | c :: t => if is_ws c then skip_ws t else l
  | [] => []
  end.

Fixpoint digits_value (acc : Z) (l : list ascii) : option Z :=
  match l with
  | [] => Some acc
  | c :: t =>
      if is_digit c then digits_value (acc * 10 + Z.of_nat (nat_of_ascii c - 48)) t
      else None
  end.

Definition string_to_number (s : string) : option Z :=
  let l := List.rev (skip_ws (List.rev (skip_ws (list_ascii_of_string s)))) in
  match l with
  | [] => Some 0
  | c :: t =>
      if Ascii.eqb c "-"%char then
        match t with [] => None | _ => option_map Z.opp (digits_value 0 t) end
      else if Ascii.eqb c "+"%char then
        match t with [] => None | _ => digits_value 0 t end
      else digits_value 0 l
  end.

Definition js_to_number (v : jval) : option Z :=
  match v with
  | JUndef => None
  | JNull => Some 0
  | JBool b => Some (if b then 1 else 0)
  | JNum n => Some n
  | JStr s => string_to_number s
  | JArr _ => string_to_number (js_to_string v)
  | JObj _ => None
  end.

(** [v > n] for a number [n]: NaN compares false. *)
Definition js_gt_num (v : jval) (n : Z) : bool :=
  match js_to_number v with Some m => n <? m | None => false end.

(** Strict (in)equality.  Objects and arrays compared here always come from
    distinct allocations, so they are never [===]. *)
Definition js_strict_eq (a b : jval) : bool :=
  match a, b with
  | JUndef, JUndef | JNull, JNull => true
  | JBool x, JBool y => Bool.eqb x y
  | JNum x, JNum y => x =? y
  | JStr x, JStr y => String.eqb x y
  | _, _ => false
  end.

(* ------------------------------------------------------------------ *)
(** ** JSON text: [JSON.stringify] and [JSON.parse] *)

Definition ch (n : nat) : ascii := ascii_of_nat n.
Definition lit (s : string) : list ascii := list_ascii_of_string s.

Definition hex_char (d : nat) : ascii :=
  if (d <? 10)%nat then ascii_of_nat (48 + d) else ascii_of_nat (87 + d).

(** QuoteJSONString on one byte: the short escapes, [\u00xx] (lowercase) for
    the other control characters, every other byte unchanged. *)
Definition escape_char (c : ascii) : list ascii :=
  let n := nat_of_ascii c in
  if (n =? 34)%nat then [ch 92; ch 34]
  else if (n =? 92)%nat then [ch 92; ch 92]
  else if (n =? 8)%nat then [ch 92; "b"%char]
  else if (n =? 9)%nat then [ch 92; "t"%char]
  else if (n =? 10)%nat then [ch 92; "n"%char]
  else if (n =? 12)%nat then [ch 92; "f"%char]
  else if (n =? 13)%nat then [ch 92; "r"%char]
  else if (n <? 32)%nat then
    [ch 92; "u"%char; "0"%char; "0"%char; hex_char (n / 16); hex_char (n mod 16)]
  else [c].

Definition quote_chars (s : string) : list ascii :=
  ch 34 :: concat (map escape_char (list_ascii_of_string s)) ++ [ch 34].

Definition join_commas (l : list (list ascii)) : list ascii :=
  match l with
  | [] => []
  | s :: t => s ++ concat (map (cons (ch 44)) t)
  end.

(** SerializeJSONProperty: [undefined] members of an object are omitted,
    [undefined] array elements become [null], a top-level [undefined] gives
    no text at all. *)
Fixpoint serl (v : jval) : option (list ascii) :=
  match v with
  | JUndef => None
  | JNull => Some (lit "null")
  | JBool true => Some (lit "true")
  | JBool false => Some (lit "false")
  | JNum z => Some (z_chars z)
  | JStr s => Some (quote_chars s)
  | JArr l =>
      Some (ch 91 :: join_commas
              (map (fun x => match serl x with Some s => s | None => lit "null" end) l)
              ++ [ch 93])
  | JObj l =>
      Some (ch 123 :: join_commas
              ((fix members (l : list (string * jval)) : list (list ascii) :=
                  match l with
                  | [] => []
                  | (k, x) :: t =>
                      match serl x with
                      | Some s => (quote_chars k ++ ch 58 :: s) :: members t
                      | None => members t
                      end
                  end) l)
              ++ [ch 125])
  end.

Definition JSON_stringify (v : jval) : option string :=
  option_map string_of_list_ascii (serl v).

(** Parsing. *)
Definition hex_val (c : ascii) : option nat :=
  let n := nat_of_ascii c in
  if (48 <=? n)%nat && (n <=? 57)%nat then Some (n - 48)%nat
  else if (97 <=? n)%nat && (n <=? 102)%nat then Some (n - 87)%nat
  else if (65 <=? n)%nat && (n <=? 70)%nat then Some (n - 55)%nat
  else None.

Definition hex4 (a b c d : ascii) : option nat :=
  match hex_val a, hex_val b, hex_val c, hex_val d with
  | Some x, Some y, Some z, Some w => Some (((x * 16 + y) * 16 + z) * 16 + w)%nat
  | _, _, _, _ => None
  end.

(** UTF-8 bytes of a BMP code point (surrogate pairs are not recombined). *)
Definition utf8_bytes (cp : nat) : list ascii :=
  if (cp <? 128)%nat then [ascii_of_nat cp]
  else if (cp <? 2048)%nat then [ascii_of_nat (192 + cp / 64); ascii_of_nat (128 + cp mod 64)]
  else [ascii_of_nat (224 + cp / 4096); ascii_of_nat (128 + (cp / 64) mod 64);
        ascii_of_nat (128 + cp mod 64)].

Definition simple_escape (e : ascii) : option ascii :=
  let n := nat_of_ascii e in
  if (n =? 34)%nat then Some (ch 34)
  else if (n =? 92)%nat then Some (ch 92)
  else if (n =? 47)%nat then Some (ch 47)
  else if (n =? 98)%nat then Some (ch 8)
  else if (n =? 102)%nat then Some (ch 12)
  else if (n =? 110)%nat then Some (ch 10)
  else if (n =? 114)%nat then Some (ch 13)
  else if (n =? 116)%nat then Some (ch 9)
  else None.

(** The body of a string literal after its opening quote: the decoded bytes
    and the text after the closing quote. *)
Fixpoint parse_str (l : list ascii) : option (list ascii * list ascii) :=
  match l with
  | [] => None
  | c :: t =>
      let n := nat_of_ascii c in
      if (n =? 34)%nat then Some ([], t)
      else if (n =? 92)%nat then
        match t with
        | [] => None
        | e :: t' =>
            match simple_escape e with
            | Some d => option_map (fun p => (d :: fst p, snd p)) (parse_str t')
            | None =>
                if (nat_of_ascii e =? 117)%nat then
                  match t' with
                  | h1 :: h2 :: h3 :: h4 :: t'' =>
                      match hex4 h1 h2 h3 h4 with
                      | Some cp => option_map (fun p => (utf8_bytes cp ++ fst p, snd p))
                                              (parse_str t'')
                      | None => None
                      end
                  | _ => None
                  end
                else None
            end
        end
      else if (n <? 32)%nat then None
      else option_map (fun p => (c :: fst p, snd p)) (parse_str t)
  end.

Definition digit_of (c : ascii) : uint -> uint :=
  match (nat_of_ascii c - 48)%nat with
  | 0%nat => D0 | 1%nat => D1 | 2%nat => D2 | 3%nat => D3 | 4%nat => D4
  | 5%nat => D5 | 6%nat => D6 | 7%nat => D7 | 8%nat => D8 | _ => D9
  end.

Fixpoint take_digits (l : list ascii) : uint * list ascii :=
  match l with
  | c :: t =>
      if is_digit c then let (u, r) := take_digits t in (digit_of c u, r)
      else (Nil, l)
  | [] => (Nil, [])
  end.

(** A number literal: an optional minus, then 0 or a digit run not starting
    with 0.  A fraction or exponent part is
    left unread, so the surrounding parse fails on it. *)
Definition parse_num (l : list ascii) : option (jval * list ascii) :=
  let '(neg, l1) := match l with
                    | c :: t => if (nat_of_ascii c =? 45)%nat then (true, t) else (false, l)
                    | [] => (false, l)
                    end in
  match l1 with
  | c :: t =>
      if is_digit c then
        if (nat_of_ascii c =? 48)%nat then Some (JNum 0, t)
        else let (u, r) := take_digits l1 in
             Some (JNum (Z.of_int (if neg then Neg u else Pos u)), r)
      else None
  | [] => None
  end.

Fixpoint strip_prefix (p l : list ascii) : option (list ascii) :=
  match p, l with
  | [], _ => Some l
  | a :: p', b :: l' => if Ascii.eqb a b then strip_prefix p' l' else None
  | _ :: _, [] => None
  end.

Fixpoint pv (n : nat) (l : list ascii) {struct n} : option (jval * list ascii) :=
  match n with
  | O => None
  | S n' =>
      match skip_ws l with
      | [] => None
      | c :: t =>
          let k := nat_of_ascii c in
          if (k =? 110)%nat then option_map (fun r => (JNull, r)) (strip_prefix (lit "ull") t)
          else if (k =? 116)%nat then option_map (fun r => (JBool true, r)) (strip_prefix (lit "rue") t)
          else if (k =? 102)%nat then option_map (fun r => (JBool false, r)) (strip_prefix (lit "alse") t)
          else if (k =? 34)%nat then
            option_map (fun p => (JStr (string_of_list_ascii (fst p)), snd p)) (parse_str t)
          else if (k =? 45)%nat || is_digit c then parse_num (c :: t)
          else if (k =? 91)%nat then
            match skip_ws t with
            | d :: r => if (nat_of_ascii d =? 93)%nat then Some (JArr [], r) else pa n' t []
            | [] => None
            end
          else if (k =? 123)%nat then
            match skip_ws t with
            | d :: r => if (nat_of_ascii d =? 125)%nat then Some (JObj [], r) else po n' t []
            | [] => None
            end
          else None
      end
  end
with pa (n : nat) (l : list ascii) (acc : list jval) {struct n} : option (jval * list ascii) :=
  match n with
  | O => None
  | S n' =>
      match pv n' l with
      | None => None
      | Some (v, r) =>
          match skip_ws r with
          | c :: r' =>
              if (nat_of_ascii c =? 44)%nat then pa n' r' (acc ++ [v])
              else if (nat_of_ascii c =? 93)%nat then Some (JArr (acc ++ [v]), r')
              else None
          | [] => None
          end
      end
  end
with po (n : nat) (l : list ascii) (acc : list (string * jval)) {struct n}
  : option (jval * list ascii) :=
  match n with
  | O => None
  | S n' =>
      match skip_ws l with
      | c :: t =>
          if (nat_of_ascii c =? 34)%nat then
            match parse_str t with
            | None => None
            | Some (ks, r) =>
                match skip_ws r with
                | d :: r1 =>
                    if (nat_of_ascii d =? 58)%nat then
                      match pv n' r1 with
                      | None => None
                      | Some (v, r2) =>
                          let acc' := assoc_set (string_of_list_ascii ks) v acc in
                          match skip_ws r2 with
                          | e :: r3 =>
                              if (nat_of_ascii e =? 44)%nat then po n' r3 acc'
                              else if (nat_of_ascii e =? 125)%nat then Some (JObj acc', r3)
                              else None
                          | [] => None
                          end
                      end
                    else None
                | [] => None
                end
            end
          else None
      | [] => None
      end
  end.

(** [JSON.parse]: a duplicate key keeps its first position and its last
    value ([assoc_set]); the recursion is bounded by the text length. *)
Definition JSON_parse_chars (l : list ascii) : res jval :=
  match pv (S (2 * List.length l)) l with
  | Some (v, r) =>
      match skip_ws r with
      | [] => Ok v
      | _ => Err (SyntaxError "Unexpected non-whitespace character after JSON")
      end
  | None => Err (SyntaxError "Unexpected token in JSON")
  end.

Definition JSON_parse (s : string) : res jval := JSON_parse_chars (list_ascii_of_string s).

Definition ex_doc : jval :=
  JObj [("info", JObj [("uid", JStr "100"); ("n", JNum (-12))]);
        ("list", JArr [JNull; JBool true; JStr "a b"]); ("u", JUndef)].

(* ------------------------------------------------------------------ *)
(** ** SHA-256 (FIPS 180-4) and [calculateHash] *)

Module Sha256.

Definition mask32 : Z := 2 ^ 32 - 1.
Definition add32 (a b : Z) : Z := (a + b) mod 2 ^ 32.
Definition rotr (x : Z) (n : Z) : Z :=
  Z.lor (Z.shiftr x n) (Z.land (Z.shiftl x (32 - n)) mask32).
Definition not32 (x : Z) : Z := Z.lxor x mask32.

Definition ch_f (e f g : Z) : Z := Z.lxor (Z.land e f) (Z.land (not32 e) g).
Definition maj_f (a b c : Z) : Z :=
  Z.lxor (Z.land a b) (Z.lxor (Z.land a c) (Z.land b c)).
Definition bsig0 (a : Z) : Z := Z.lxor (rotr a 2) (Z.lxor (rotr a 13) (rotr a 22)).
Definition bsig1 (e : Z) : Z := Z.lxor (rotr e 6) (Z.lxor (rotr e 11) (rotr e 25)).
Definition ssig0 (x : Z) : Z := Z.lxor (rotr x 7) (Z.lxor (rotr x 18) (Z.shiftr x 3)).
Definition ssig1 (x : Z) : Z := Z.lxor (rotr x 17) (Z.lxor (rotr x 19) (Z.shiftr x 10)).

Definition K : list Z :=
  [1116352408; 1899447441; 3049323471; 3921009573; 961987163; 1508970993;
   2453635748; 2870763221; 3624381080; 310598401; 607225278; 1426881987;
   1925078388; 2162078206; 2614888103; 3248222580; 3835390401; 4022224774;
   264347078; 604807628; 770255983; 1249150122; 1555081692; 1996064986;
   2554220882; 2821834349; 2952996808; 3210313671; 3336571891; 3584528711;
   113926993; 338241895; 666307205; 773529912; 1294757372; 1396182291;
   1695183700; 1986661051; 2177026350; 2456956037; 2730485921; 2820302411;
   3259730800; 3345764771; 3516065817; 3600352804; 4094571909; 275423344;
   430227734; 506948616; 659060556; 883997877; 958139571; 1322822218;
   1537002063; 1747873779; 1955562222; 2024104815; 2227730452; 2361852424;
   2428436474; 2756734187; 3204031479; 3329325298].

Definition H0 : list Z :=
  [0x6a09e667; 0xbb67ae85; 0x3c6ef372; 0xa54ff53a; 0x510e527f; 0x9b05688c; 0x1f83d9ab; 0x5be0cd19].

(** Message padding: 0x80, zeros, and the 64-bit big-endian bit length. *)
Definition be_bytes (n : nat) (x : Z) : list Z :=
  map (fun i => Z.land (Z.shiftr x (8 * Z.of_nat (n - 1 - i))) 255) (seq 0 n).

Definition pad (msg : list Z) : list Z :=
  let len := Z.of_nat (List.length msg) in
  msg ++ [128] ++ repeat 0 (Z.to_nat ((55 - len) mod 64)) ++ be_bytes 8 (len * 8).

Fixpoint words (bs : list Z) : list Z :=
  match bs with
  | a :: b :: c :: d :: t =>
      Z.lor (Z.shiftl a 24) (Z.lor (Z.shiftl b 16) (Z.lor (Z.shiftl c 8) d)) :: words t
  | _ => []
  end.

(** Message schedule: extend 16 words to 64. *)
Fixpoint extend (k : nat) (w : list Z) : list Z :=
  match k with
  | O => w
  | S k' =>
      let t := List.length w in
      let wi := add32 (add32 (ssig1 (nth (t - 2) w 0)) (nth (t - 7) w 0))
                      (add32 (ssig0 (nth (t - 15) w 0)) (nth (t - 16) w 0)) in
      extend k' (w ++ [wi])
  end.

Definition round (st : list Z) (kw : Z * Z) : list Z :=
  match st with
  | [a; b; c; d; e; f; g; h] =>
      let t1 := add32 (add32 (add32 h (bsig1 e)) (add32 (ch_f e f g) (fst kw))) (snd kw) in
      let t2 := add32 (bsig0 a) (maj_f a b c) in
      [add32 t1 t2; a; b; c; add32 d t1; e; f; g]
  | _ => st
  end.

Definition compress (hs : list Z) (block : list Z) : list Z :=
  let w := extend 48 (words block) in
  let st := fold_left round (combine K w) hs in
  map (fun p => add32 (fst p) (snd p)) (combine hs st).

Fixpoint blocks (fuel : nat) (bs : list Z) : list (list Z) :=
  match fuel with
  | O => []
  | S f => match bs with [] => [] | _ => firstn 64 bs :: blocks f (skipn 64 bs) end
  end.

Definition digest (msg : list Z) : list Z :=
  let p := pad msg in
  let hs := fold_left compress (blocks (List.length p) p) H0 in
  concat (map (be_bytes 4) hs).

End Sha256.

Definition hex_byte (b : Z) : list ascii :=
  [hex_char (Z.to_nat (b / 16)); hex_char (Z.to_nat (b mod 16))].

(** Hex SHA-256 of the UTF-8 bytes of a string. *)
Definition sha256_hex (bytes : list ascii) : string :=
  string_of_list_ascii
    (concat (map hex_byte (Sha256.digest (map (fun c => Z.of_nat (nat_of_ascii c)) bytes)))).

(** Client [calculateHash(data)]: a string is hashed as it is, anything else
    through [JSON.stringify]; hashing [undefined] throws. *)
Definition calculateHash (data : jval) : res string :=
  match data with
  | JStr s => Ok (sha256_hex (list_ascii_of_string s))
  | _ =>
      match serl data with
      | Some content => Ok (sha256_hex content)
      | None => Err (TypeError "The data argument must be of type string or an instance of Buffer")
      end
  end.

(** Apps Script [calculateHash(content)]: [Utilities.computeDigest] over the
    string, each signed byte printed as two lowercase hex digits. *)
Definition gs_calculateHash (content : string) : string :=
  sha256_hex (list_ascii_of_string content).

(* ------------------------------------------------------------------ *)
(** ** Transport client: [makeRequest] *)

(** One HTTPS exchange as the [https] module reports it. *)
Inductive http_outcome : Type :=
| HResp (statusCode : Z) (location : option string) (body : string)
| HNetError (e : exn).

(** The network: what the endpoint answers to a method, URL and optional body
    and how many milliseconds the answer (or the failure) takes to arrive;
    whether the agent keeps a connection alive, so that a socket whose
    response is left unread stays open; and the WHATWG URL parser
    ([new URL(s)] succeeds, [new URL(loc, base)]). *)
Record network : Type := Network {
  net_send : string -> string -> option string -> http_outcome * Z;
  net_keepalive : bool;
  url_valid : string -> bool;
  url_resolve : string -> string -> string
}.

(** [req.setTimeout(30000, ...)]: the socket's idle timeout. *)
Definition REQUEST_TIMEOUT : Z := 30000.

Definition is_redirect (statusCode : Z) (location : option string) : option string :=
  match location with
  | Some loc =>
      if (300 <=? statusCode) && (statusCode <? 400) && negb (String.eqb loc EmptyString)
      then Some loc else None
  | None => None
  end.

(** The [end] handler of a non-redirect response. *)
Definition finish_response (statusCode : Z) (responseBody : string) : res jval :=
  if (200 <=? statusCode) && (statusCode <? 300) then
    match JSON_parse responseBody with
    | Ok v => Ok v
    | Err e => Err (Error (append "Failed to parse JSON response: " (ex_msg e)))
    end
  else Err (Error (append "Request failed with status "
                     (append (z_to_string statusCode) (append ": " responseBody)))).

(** The earlier of two pending timers. *)
Definition timer_min (a b : option Z) : option Z :=
  match a, b with
  | Some x, Some y => Some (Z.min x y)
  | Some x, None => Some x
  | None, b => b
  end.

(** The timer of an enclosing request, due at [pending], fires before this
    request's answer (due at [d]) and before its own timeout. *)
Definition outer_fires (pending : option Z) (d : Z) : option Z :=
  match pending with
  | Some p => if p <=? Z.min d REQUEST_TIMEOUT then Some p else None
  | None => None
  end.

(** [makeRequest(payload, requestUrl)], with its timing. [pending] is when
    the timeout of an enclosing request fires, in milliseconds from the
    start of this call: a request whose 3xx response is left unread keeps
    its socket, and so its idle timer, when the connection is kept alive.
    The result is how the outermost promise settles and when, in
    milliseconds from the start of this call. The function recurses on
    every redirect; [fuel] counts the HTTP requests issued, and [None] means
    the promise has not settled after that many requests. *)
Fixpoint makeRequest (fuel : nat) (net : network) (googleAppsScriptUrl : string)
         (payload : jval) (requestUrl : option string) (pending : option Z)
  : option (res jval * Z) :=
  match fuel with
  | O => None
  | S fuel' =>
      if String.eqb googleAppsScriptUrl EmptyString
         && match requestUrl with None => true | Some _ => false end
      then Some (Err (Error "Please set Google Apps Script URL in settings."), 0)
      else
        let targetUrlStr := match requestUrl with Some u => u | None => googleAppsScriptUrl end in
        let isRedirect := match requestUrl with Some _ => true | None => false end in
        if negb (url_valid net targetUrlStr) then Some (Err (TypeError "Invalid URL"), 0)
        else
          let method := if isRedirect then "GET" else "POST" in
          let body := if truthy payload && negb isRedirect then JSON_stringify payload else None in
          let '(outcome, d) := net_send net method targetUrlStr body in
          match outer_fires pending d with
          | Some p => Some (Err (Error "Request timeout"), p)
          | None =>
          if REQUEST_TIMEOUT <=? d then Some (Err (Error "Request timeout"), REQUEST_TIMEOUT)
          else
          match outcome with
          | HNetError e => Some (Err e, d)
          | HResp statusCode location responseBody =>
              match is_redirect statusCode location with
              | Some loc =>
                  let pending' :=
                    timer_min (option_map (fun p => p - d) pending)
                              (if net_keepalive net then Some REQUEST_TIMEOUT else None) in
                  match makeRequest fuel' net googleAppsScriptUrl JNull
                                    (Some (url_resolve net loc targetUrlStr)) pending' with
                  | Some (r, t) => Some (r, d + t)
                  | None => None
                  end
              | None => Some (finish_response statusCode responseBody, d)
              end
          end
          end
  end.

(* ------------------------------------------------------------------ *)
(** ** The cloud-sync module of the Electron main process *)

(** Observable effects, in the order they happen. *)
Inductive event : Type :=
| EvRequest (payload : jval)          (* makeRequest(payload) *)
| EvImport41 (data : jval)            (* importUgif41Json(data) *)
| EvImport30 (data : jval)            (* importUgif30Json(data) *)
| EvWriteBackup (name : string)       (* fs.writeJson(backupPath, ...) *)
| EvRemoveBackup (name : string)      (* fs.remove(...) *)
| EvSaveConfig.                       (* config.save() *)

Definition is_remote_event (e : event) : bool :=
  match e with EvRequest _ | EvImport41 _ | EvImport30 _ => true | _ => false end.

Record world (S : Type) : Type := World {
  (* configuration object *)
  cfg_url : string;                 (* config.googleAppsScriptUrl, "" when unset *)
  cfg_uigfVersion : string;         (* config.uigfVersion *)
  cfg_allAccounts : bool;           (* config.uigfAllAccounts *)
  cfg_clientId : string;            (* config.cloudSyncClientId, "" when unset *)
  cfg_lastSync : jval;              (* config.googleDriveLastSync *)
  (* external collaborators and ambient inputs *)
  gen30 : res jval;                 (* generateUigf30Json() *)
  gen41 : bool -> res jval;         (* generateUigf41Json(allAccounts) *)
  import_fails : jval -> option exn;  (* outcome of importUgif*Json(data) *)
  now_ms : Z;                       (* Date.now() *)
  iso_now : string;                 (* new Date().toISOString() *)
  uuid : string;                    (* crypto.randomUUID() *)
  userDataPath : string;
  backup_dir : list string;         (* entries of the backup directory *)
  remote_state : S;                 (* state behind the endpoint *)
  trace : list event
}.
Arguments World {S}.
Arguments cfg_url {S}. Arguments cfg_uigfVersion {S}. Arguments cfg_allAccounts {S}.
Arguments cfg_clientId {S}. Arguments cfg_lastSync {S}. Arguments gen30 {S}.
Arguments gen41 {S}. Arguments import_fails {S}. Arguments now_ms {S}.
Arguments iso_now {S}. Arguments uuid {S}. Arguments userDataPath {S}.
Arguments backup_dir {S}. Arguments remote_state {S}. Arguments trace {S}.

Section WorldUpdates.
Context {S : Type}.
Definition emit (e : event) (w : world S) : world S :=
  World (cfg_url w) (cfg_uigfVersion w) (cfg_allAccounts w) (cfg_clientId w) (cfg_lastSync w)
        (gen30 w) (gen41 w) (import_fails w) (now_ms w) (iso_now w) (uuid w)
        (userDataPath w) (backup_dir w) (remote_state w) (trace w ++ [e]).
Definition set_clientId (c : string) (w : world S) : world S :=
  World (cfg_url w) (cfg_uigfVersion w) (cfg_allAccounts w) c (cfg_lastSync w)
        (gen30 w) (gen41 w) (import_fails w) (now_ms w) (iso_now w) (uuid w)
        (userDataPath w) (backup_dir w) (remote_state w) (trace w).
Definition set_lastSync (t : jval) (w : world S) : world S :=
  World (cfg_url w) (cfg_uigfVersion w) (cfg_allAccounts w) (cfg_clientId w) t
        (gen30 w) (gen41 w) (import_fails w) (now_ms w) (iso_now w) (uuid w)
        (userDataPath w) (backup_dir w) (remote_state w) (trace w).
Definition set_backup_dir (d : list string) (w : world S) : world S :=
  World (cfg_url w) (cfg_uigfVersion w) (cfg_allAccounts w) (cfg_clientId w) (cfg_lastSync w)
        (gen30 w) (gen41 w) (import_fails w) (now_ms w) (iso_now w) (uuid w)
        (userDataPath w) d (remote_state w) (trace w).
Definition set_remote_state (s : S) (w : world S) : world S :=
  World (cfg_url w) (cfg_uigfVersion w) (cfg_allAccounts w) (cfg_clientId w) (cfg_lastSync w)
        (gen30 w) (gen41 w) (import_fails w) (now_ms w) (iso_now w) (uuid w)
        (userDataPath w) (backup_dir w) s (trace w).
Definition set_iso_now (t : string) (w : world S) : world S :=
  World (cfg_url w) (cfg_uigfVersion w) (cfg_allAccounts w) (cfg_clientId w) (cfg_lastSync w)
        (gen30 w) (gen41 w) (import_fails w) (now_ms w) t (uuid w)
        (userDataPath w) (backup_dir w) (remote_state w) (trace w).
End WorldUpdates.

(** The async functions: state passing with exceptions.  Effects performed
    before a throw are kept, as in JavaScript. *)
Definition M (S A : Type) : Type := world S -> res A * world S.

Definition ret {S A} (a : A) : M S A := fun w => (Ok a, w).
Definition throw {S A} (e : exn) : M S A := fun w => (Err e, w).
Definition bind {S A B} (m : M S A) (k : A -> M S B) : M S B :=
  fun w => match m w with
           | (Ok a, w') => k a w'
           | (Err e, w') => (Err e, w')
           end.
(** [try { m } catch (e) { h(e) }] *)
Definition catch {S A} (m : M S A) (h : exn -> M S A) : M S A :=
  fun w => match m w with
           | (Ok a, w') => (Ok a, w')
           | (Err e, w') => h e w'
           end.
Definition lift {S A} (r : res A) : M S A :=
  fun w => (r, w).
Definition modify {S} (f : world S -> world S) : M S unit := fun w => (Ok tt, f w).
Definition gets {S A} (f : world S -> A) : M S A := fun w => (Ok (f w), w).

Notation "x <- m ;; k" := (bind m (fun x => k))
  (at level 61, m at next level, right associativity).
Notation "m ;;; k" := (bind m (fun _ => k)) (at level 61, right associativity).

Definition get {S} (v : jval) (k : string) : M S jval := lift (js_get v k).

Definition SCHEMA_VERSION : Z := 1.

Definition path_join (a b : string) : string := append a (append "/" b).

Definition starts_with (p s : string) : bool := String.prefix p s.

Definition str_ltb (a b : string) : bool :=
  match String.compare a b with Lt => true | _ => false end.

Fixpoint insert_sorted (x : string) (l : list string) : list string :=
  match l with
  | [] => [x]
  | y :: t => if str_ltb y x then y :: insert_sorted x t else x :: l
  end.

(** [Array.prototype.sort] with the default comparator (code-unit order). *)
Definition sort_strings (l : list string) : list string :=
  fold_right insert_sorted [] l.

(** [s.replace(/[:.]/g, '-')] *)
Definition replace_colon_dot (s : string) : string :=
  string_of_list_ascii
    (map (fun c => if Ascii.eqb c ":"%char || Ascii.eqb c "."%char then "-"%char else c)
         (list_ascii_of_string s)).

Section Client.
Context {S : Type}.
(** The endpoint behind [makeRequest(payload)] with the URL configured: the
    parsed JSON answer, or the error the request rejects with. *)
Variable remote : jval -> S -> res jval * S.
Variable APP_VERSION : string.
(** [new Date(ts).toLocaleString()] *)
Variable toLocaleString : jval -> string.

Definition request (payload : jval) : M S jval :=
  fun w =>
    if String.eqb (cfg_url w) EmptyString then
      (Err (Error "Please set Google Apps Script URL in settings."), w)
    else
      let (r, s') := remote payload (remote_state w) in
      (r, set_remote_state s' (emit (EvRequest payload) w)).

Definition save_config : M S unit := modify (emit EvSaveConfig).

(** The document-generation collaborator as every caller selects it. *)
Definition generate : M S jval :=
  fun w =>
    (if String.eqb (cfg_uigfVersion w) "3.0" then gen30 w else gen41 w (cfg_allAccounts w), w).

Definition getClientId : M S string :=
  fun w =>
    if String.eqb (cfg_clientId w) EmptyString then
      (Ok (uuid w), emit EvSaveConfig (set_clientId (uuid w) w))
    else (Ok (cfg_clientId w), w).

Fixpoint count_accounts (accounts : list jval) (count : Z) : res Z :=
  match accounts with
  | [] => Ok count
  | account :: t =>
      match js_get account "list" with
      | Err e => Err e
      | Ok l =>
          let count' := if truthy l && is_array l
                        then match js_get l "length" with Ok (JNum n) => count + n | _ => count end
                        else count in
          count_accounts t count'
      end
  end.

(** [countRecords(data)] (the Apps Script has the same function). *)
Definition countRecords (data : jval) : res Z :=
  if negb (truthy data) then Ok 0 else
  match js_get data "hk4e" with
  | Err e => Err e
  | Ok hk =>
      if truthy hk && is_array hk then
        match hk with JArr accounts => count_accounts accounts 0 | _ => Ok 0 end
      else
        match js_get data "list" with
        | Err e => Err e
        | Ok l =>
            if truthy l && is_array l then
              match js_get l "length" with Ok (JNum n) => Ok n | _ => Ok 0 end
            else Ok 0
        end
  end.

Definition getCloudMetadata : M S jval :=
  response <- request (JObj [("action", JStr "metadata")]) ;;
  status <- get response "status" ;;
  if js_strict_eq status (JStr "error") then
    err <- get response "error" ;; throw (Error (error_message_of err))
  else ret response.

Definition getLocalMetadata : M S jval :=
  catch
    (data <- generate ;;
     let content := match JSON_stringify data with Some s => JStr s | None => JUndef end in
     lastSync <- gets cfg_lastSync ;;
     now <- gets now_ms ;;
     localHash <- lift (calculateHash content) ;;
     recordCount <- lift (countRecords data) ;;
     ret (JObj [("exists", JBool true);
                ("localTimestamp", js_or lastSync (JNum now));
                ("localHash", JStr localHash);
                ("recordCount", JNum recordCount);
                ("data", data)]))
    (fun _ => ret (JObj [("exists", JBool false); ("localTimestamp", JNull);
                         ("localHash", JNull); ("recordCount", JNum 0); ("data", JNull)])).

(** Keep only the ten greatest [backup_*] names. *)
Definition prune_list (files : list string) : list string :=
  skipn 10 (List.rev (sort_strings (filter (starts_with "backup_") files))).

Definition remove_entry (name : string) : M S unit :=
  modify (fun w => emit (EvRemoveBackup name)
                        (set_backup_dir (filter (fun f => negb (String.eqb f name)) (backup_dir w)) w)).

Fixpoint remove_all (names : list string) : M S unit :=
  match names with
  | [] => ret tt
  | n :: t => remove_entry n ;;; remove_all t
  end.

Definition write_entry (name : string) : M S unit :=
  modify (fun w => emit (EvWriteBackup name)
                        (set_backup_dir (if existsb (String.eqb name) (backup_dir w)
                                         then backup_dir w else backup_dir w ++ [name]) w)).

Definition createLocalBackup : M S jval :=
  catch
    (udp <- gets userDataPath ;;
     let backupDir := path_join udp "cloud-sync-backups" in
     iso <- gets iso_now ;;
     let timestamp := replace_colon_dot iso in
     let backupFileName := append "backup_" (append timestamp ".json") in
     let backupPath := path_join backupDir backupFileName in
     _ <- generate ;;
     write_entry backupFileName ;;;
     files <- gets backup_dir ;;
     remove_all (prune_list files) ;;;
     ret (JStr backupPath))
    (fun _ => ret JNull).

Definition uploadToCloud : M S jval :=
  data <- generate ;;
  clientId <- getClientId ;;
  now <- gets now_ms ;;
  dataHash <- lift (calculateHash data) ;;
  let payload := JObj [("action", JStr "upload"); ("schemaVersion", JNum SCHEMA_VERSION);
                       ("appVersion", JStr APP_VERSION); ("clientId", JStr clientId);
                       ("timestamp", JNum now); ("dataHash", JStr dataHash);
                       ("payload", data)] in
  response <- request payload ;;
  status <- get response "status" ;;
  if js_strict_eq status (JStr "error") then
    err <- get response "error" ;; throw (Error (error_message_of err))
  else
    now' <- gets now_ms ;;
    modify (set_lastSync (JNum now')) ;;;
    save_config ;;;
    ret response.

Definition import_with (ev : jval -> event) (data : jval) : M S unit :=
  fun w => match import_fails w data with
           | Some e => (Err e, emit (ev data) w)
           | None => (Ok tt, emit (ev data) w)
           end.

Definition downloadFromCloud : M S jval :=
  response <- request (JObj [("action", JStr "download")]) ;;
  status <- get response "status" ;;
  if js_strict_eq status (JStr "error") then
    err <- get response "error" ;; throw (Error (error_message_of err))
  else
  payload <- get response "payload" ;;
  if negb (truthy payload) then throw (Error "No data payload in response") else
  schemaVersion <- get response "schemaVersion" ;;
  if truthy schemaVersion && js_gt_num schemaVersion SCHEMA_VERSION then
    throw (Error "Incompatible data format version. Please update the application.")
  else
  let data := payload in
  info <- (if truthy data then get data "info" else ret data) ;;
  (if truthy data && truthy info then
     hk4e <- get data "hk4e" ;;
     if truthy hk4e then import_with EvImport41 data
     else
       list <- get data "list" ;;
       if truthy list then import_with EvImport30 data
       else throw (Error "Invalid data format")
   else throw (Error "Invalid data format: missing info field")) ;;;
  now <- gets now_ms ;;
  modify (set_lastSync (JNum now)) ;;;
  save_config ;;;
  ret response.

Definition formatTimestamp (ts : jval) : string :=
  if negb (truthy ts) then "Never" else toLocaleString ts.

Definition degrade (e : exn) : M S jval :=
  ret (JObj [("exists", JBool false); ("error", JStr (ex_msg e))]).

Definition side_summary (meta : jval) (tsKey hashKey : string) : res jval :=
  match js_get meta "exists", js_get meta tsKey, js_get meta hashKey,
        js_get meta "recordCount" with
  | Ok ex, Ok ts, Ok h, Ok rc =>
      Ok (JObj [("exists", js_or ex (JBool false)); ("timestamp", ts);
                ("timestampFormatted", JStr (formatTimestamp ts));
                ("hash", h); ("recordCount", js_or rc (JNum 0))])
  | Err e, _, _, _ | _, Err e, _, _ | _, _, Err e, _ | _, _, _, Err e => Err e
  end.

(** [cloudMeta.exists && localMeta.exists && cloudMeta.cloudHash !== localMeta.localHash] *)
Definition conflict_of (cloudMeta localMeta : jval) : res jval :=
  match js_get cloudMeta "exists" with
  | Err e => Err e
  | Ok ce =>
      if negb (truthy ce) then Ok ce else
      match js_get localMeta "exists" with
      | Err e => Err e
      | Ok le =>
          if negb (truthy le) then Ok le else
          match js_get cloudMeta "cloudHash", js_get localMeta "localHash" with
          | Ok ch, Ok lh => Ok (JBool (negb (js_strict_eq ch lh)))
          | Err e, _ | _, Err e => Err e
          end
      end
  end.

(** Both sides of [Promise.all]: the two branches share no state, so they
    are run one after the other. *)
Definition gather_metadata : M S (jval * jval) :=
  cloudMeta <- catch getCloudMetadata degrade ;;
  localMeta <- catch getLocalMetadata degrade ;;
  ret (cloudMeta, localMeta).

Definition error_result (e : exn) : jval :=
  JObj [("status", JStr "error"); ("error", JStr (ex_msg e))].

Definition CLOUD_SYNC_GET_METADATA : M S jval :=
  catch
    (metas <- gather_metadata ;;
     let (cloudMeta, localMeta) := metas in
     cloud <- lift (side_summary cloudMeta "cloudTimestamp" "cloudHash") ;;
     local <- lift (side_summary localMeta "localTimestamp" "localHash") ;;
     hasConflict <- lift (conflict_of cloudMeta localMeta) ;;
     ret (JObj [("status", JStr "ok"); ("cloud", cloud); ("local", local);
                ("hasConflict", hasConflict)]))
    (fun e => ret (error_result e)).

Definition CLOUD_SYNC_UPLOAD : M S jval :=
  catch
    (result <- uploadToCloud ;;
     ts <- get result "cloudTimestamp" ;;
     rc <- get result "recordCount" ;;
     ret (JObj [("status", JStr "ok"); ("cloudTimestamp", ts); ("recordCount", rc)]))
    (fun e => ret (error_result e)).

Definition CLOUD_SYNC_DOWNLOAD : M S jval :=
  catch
    (backupPath <- createLocalBackup ;;
     catch
       (result <- downloadFromCloud ;;
        ts <- get result "cloudTimestamp" ;;
        rc <- get result "recordCount" ;;
        ret (JObj [("status", JStr "ok"); ("cloudTimestamp", ts); ("recordCount", rc);
                   ("backupPath", backupPath)]))
       (fun importError =>
          ret (JObj [("status", JStr "error"); ("error", JStr (ex_msg importError));
                     ("backupPath", backupPath); ("backupPreserved", JBool true)])))
    (fun e => ret (error_result e)).

(** Legacy handlers registered by the same module. *)
Definition GOOGLE_DRIVE_AUTH : M S jval :=
  url <- gets cfg_url ;;
  if String.eqb url EmptyString then ret (JStr "Please enter the Apps Script URL in settings.")
  else ret (JStr "success").

Definition GOOGLE_DRIVE_UPLOAD : M S jval :=
  catch (uploadToCloud ;;; ret (JStr "success")) (fun e => ret (JStr (ex_msg e))).

Definition GOOGLE_DRIVE_DOWNLOAD : M S jval :=
  catch (createLocalBackup ;;; downloadFromCloud ;;; ret (JStr "success"))
        (fun e => ret (JStr (ex_msg e))).
End Client.

(* ------------------------------------------------------------------ *)
(** ** The Apps Script endpoint ([GOOGLE_APPS_SCRIPT.gs]) *)

Module AppsScript.

Definition FILE_NAME : string := "genshin-wish-export-data.json".
Definition CURRENT_SCHEMA_VERSION : Z := 1.

Record drive_file : Type := DriveFile {
  f_content : string;
  f_updated : Z;          (* getLastUpdated().getTime() *)
  f_id : string
}.

Record gs_state : Type := GState {
  data_file : option drive_file;          (* the file named FILE_NAME *)
  backups : list (string * string);       (* backup folder: name and content *)
  gs_now : Z;                             (* Date.now() and write times *)
  gs_stamp : string;                      (* formatDate(new Date(), tz, ...) *)
  new_id : string                         (* id Drive gives a created file *)
}.

Definition GM (A : Type) : Type := gs_state -> res A * gs_state.

Definition set_file (f : option drive_file) (s : gs_state) : gs_state :=
  GState f (backups s) (gs_now s) (gs_stamp s) (new_id s).

Definition add_backup (b : string * string) (s : gs_state) : gs_state :=
  GState (data_file s) (backups s ++ [b]) (gs_now s) (gs_stamp s) (new_id s).

Definition rbind {A B} (r : res A) (k : A -> res B) : res B :=
  match r with Ok a => k a | Err e => Err e end.

Notation "x <-? r ;; k" := (rbind r (fun x => k))
  (at level 61, r at next level, right associativity).

Definition getMetadata (s : gs_state) : res jval :=
  match data_file s with
  | None =>
      Ok (JObj [("status", JStr "ok"); ("exists", JBool false); ("cloudTimestamp", JNull);
                ("cloudHash", JNull); ("recordCount", JNum 0)])
  | Some file =>
      let content := f_content file in
      data <-? JSON_parse content ;;
      rc <-? countRecords data ;;
      sv <-? js_get data "_schemaVersion" ;;
      Ok (JObj [("status", JStr "ok"); ("exists", JBool true);
                ("cloudTimestamp", JNum (f_updated file));
                ("cloudHash", JStr (gs_calculateHash content));
                ("recordCount", JNum rc);
                ("schemaVersion", js_or sv (JNum 1))])
  end.

Definition createBackupOfFile (file : drive_file) (s : gs_state) : string * gs_state :=
  let backupName := append "backup_" (append (gs_stamp s) (append "_" FILE_NAME)) in
  (backupName, add_backup (backupName, f_content file) s).

Definition uploadData (request : jval) : GM jval :=
  fun s =>
  match js_get request "schemaVersion" with
  | Err e => (Err e, s)
  | Ok sv =>
  if truthy sv && js_gt_num sv CURRENT_SCHEMA_VERSION then
    (Ok (JObj [("status", JStr "error");
               ("error", JStr "Incompatible schema version. Please update the Apps Script.")]), s)
  else
  match js_get request "payload" with
  | Err e => (Err e, s)
  | Ok payload =>
  if negb (truthy payload) then
    (Ok (JObj [("status", JStr "error"); ("error", JStr "Missing payload in upload request")]), s)
  else
  match (p1 <-? js_set payload "_schemaVersion" (JNum CURRENT_SCHEMA_VERSION) ;;
         p2 <-? js_set p1 "_uploadTimestamp" (JNum (gs_now s)) ;;
         cid <-? js_get request "clientId" ;;
         p3 <-? js_set p2 "_clientId" (js_or cid (JStr "unknown")) ;;
         av <-? js_get request "appVersion" ;;
         js_set p3 "_appVersion" (js_or av (JStr "unknown"))) with
  | Err e => (Err e, s)
  | Ok payload' =>
  match JSON_stringify payload' with
  | None => (Err (TypeError "The content argument must be a string"), s)
  | Some content =>
  let hash := gs_calculateHash content in
  let s1 := match data_file s with
            | Some existing => snd (createBackupOfFile existing s)
            | None => s
            end in
  let file := match data_file s with
              | Some existing => DriveFile content (gs_now s) (f_id existing)
              | None => DriveFile content (gs_now s) (new_id s)
              end in
  let s2 := set_file (Some file) s1 in
  match countRecords payload' with
  | Err e => (Err e, s2)
  | Ok rc =>
      (Ok (JObj [("status", JStr "ok"); ("cloudTimestamp", JNum (f_updated file));
                 ("cloudHash", JStr hash); ("recordCount", JNum rc);
                 ("fileId", JStr (f_id file))]), s2)
  end
  end
  end
  end
  end.

Definition downloadData (s : gs_state) : res jval :=
  match data_file s with
  | None =>
      Ok (JObj [("status", JStr "error"); ("error", JStr "No data file found in cloud storage");
                ("exists", JBool false)])
  | Some file =>
      let content := f_content file in
      data <-? JSON_parse content ;;
      rc <-? countRecords data ;;
      sv <-? js_get data "_schemaVersion" ;;
      Ok (JObj [("status", JStr "ok"); ("cloudTimestamp", JNum (f_updated file));
                ("cloudHash", JStr (gs_calculateHash content));
                ("recordCount", JNum rc);
                ("schemaVersion", js_or sv (JNum 1));
                ("payload", data)])
  end.

Definition createBackup (s : gs_state) : res jval * gs_state :=
  match data_file s with
  | None =>
      (Ok (JObj [("status", JStr "ok"); ("message", JStr "No file to backup");
                 ("backupCreated", JBool false)]), s)
  | Some file =>
      let (name, s') := createBackupOfFile file s in
      (Ok (JObj [("status", JStr "ok"); ("backupCreated", JBool true);
                 ("backupFileName", JStr name); ("backupFileId", JStr (new_id s))]), s')
  end.

(** [jsonResponse(data)]: the text of the answer. *)
Definition jsonResponse (data : jval) : string :=
  match JSON_stringify data with Some t => t | None => EmptyString end.

Definition dispatch (request : jval) (s : gs_state) : res jval * gs_state :=
  match js_get request "action" with
  | Err e => (Err e, s)
  | Ok action =>
      if js_strict_eq action (JStr "metadata") then (getMetadata s, s)
      else if js_strict_eq action (JStr "upload") then uploadData request s
      else if js_strict_eq action (JStr "download") then (downloadData s, s)
      else if js_strict_eq action (JStr "backup") then createBackup s
      else (Ok (JObj [("status", JStr "error");
                      ("error", JStr (append "Invalid action: " (js_to_string action)))]), s)
  end.

Definition doPost (contents : string) (s : gs_state) : string * gs_state :=
  let '(r, s') := match JSON_parse contents with
                  | Err e => (Err e, s)
                  | Ok request => dispatch request s
                  end in
  match r with
  | Ok data => (jsonResponse data, s')
  | Err err => (jsonResponse (JObj [("status", JStr "error"); ("error", JStr (exn_to_string err))]), s')
  end.

(** The endpoint as the client's [makeRequest(payload)] sees it: the payload
    is POSTed as JSON text, the Web App answers (through its redirect to the
    content URL) with status 200 and the [doPost] text, which is parsed. *)
Definition remote (payload : jval) (s : gs_state) : res jval * gs_state :=
  match JSON_stringify payload with
  | None => (Err (Error "Request failed with status 400: "), s)
  | Some body =>
      let (text, s') := doPost body s in
      (finish_response 200 text, s')
  end.

End AppsScript.

(* ------------------------------------------------------------------ *)
(** ** Auxiliary predicates used in the statements *)

Fixpoint nodup_keys (l : list string) : bool :=
  match l with
  | [] => true
  | k :: t => negb (existsb (String.eqb k) t) && nodup_keys t
  end.

(** A value [JSON.parse] can produce: no [undefined] anywhere and no
    duplicate property names (JavaScript objects have none). *)
Fixpoint wfb (v : jval) : bool :=
  match v with
  | JUndef => false
  | JArr l => forallb wfb l
  | JObj l => nodup_keys (map fst l) && forallb (fun kv => wfb (snd kv)) l
  | _ => true
  end.

(** An array index in the sense of ECMAScript: the canonical decimal text
    of an integer below 2^32 - 1. An object lists such keys first, in
    ascending numeric order, and its other keys in insertion order
    (OrdinaryOwnPropertyKeys); [JSON.stringify] follows that order. *)
Definition is_array_index (k : string) : bool :=
  match list_ascii_of_string k with
  | [] => false
  | c :: rest =>
      (negb (Nat.eqb (nat_of_ascii c) 48) || match rest with [] => true | _ => false end)
      && match digits_value 0 (c :: rest) with
         | Some n => n <? 4294967295
         | None => false
         end
  end.

(** No key of any object in [v] is an array index: then every object of
    [v] lists its members in insertion order, as the model keeps them. *)
Fixpoint index_free (v : jval) : bool :=
  match v with
  | JArr l => forallb index_free l
  | JObj l => forallb (fun kv => negb (is_array_index (fst kv)) && index_free (snd kv)) l
  | _ => true
  end.

(** [v.k] as a value: a failed read gives [undefined]. *)
Definition jget (v : jval) (k : string) : jval :=
  match js_get v k with Ok x => x | Err _ => JUndef end.

Definition is_ok {A} (r : res A) : bool := match r with Ok _ => true | Err _ => false end.

(** The result shape every cloud-sync handler promises:
    [{status: "ok", ...}] or [{status: "error", error: <message>, ...}]. *)
Definition normalized (v : jval) : bool :=
  match v with
  | JObj l =>
      match assoc_get "status" l with
      | Some (JStr st) =>
          String.eqb st "ok"
          || (String.eqb st "error"
              && match assoc_get "error" l with Some (JStr _) => true | _ => false end)
      | _ => false
      end
  | _ => false
  end.

(** The four fields [uploadData] adds to the stored document. *)
Definition is_provenance (k : string) : bool :=
  String.eqb k "_schemaVersion" || String.eqb k "_uploadTimestamp"
  || String.eqb k "_clientId" || String.eqb k "_appVersion".

Definition strip_provenance (v : jval) : jval :=
  match v with
  | JObj l => JObj (filter (fun kv => negb (is_provenance (fst kv))) l)
  | _ => v
  end.

(** The file name [createLocalBackup] writes for a given stamp. *)
Definition backup_name (stamp : string) : string :=
  append "backup_" (append stamp ".json").

(** [createLocalBackup] run once per clock reading, in order. *)
Fixpoint run_backups {S} (isos : list string) (w : world S) : world S :=
  match isos with
  | [] => w
  | t :: rest => run_backups rest (snd (createLocalBackup (set_iso_now t w)))
  end.

Definition same_length (l : list string) : bool :=
  match l with
  | [] => true
  | a :: t => forallb (fun b => (String.length b =? String.length a)%nat) t
  end.

(** Insertion into a list sorted in descending order. *)
Fixpoint ins_desc (x : string) (d : list string) : list string :=
  match d with
  | [] => [x]
  | y :: t => if str_ltb y x then x :: d else y :: ins_desc x t
  end.

(** The order [str_ltb] and its converse, as relations. *)
Definition str_lt (a b : string) : Prop := str_ltb a b = true.
Definition str_gt (a b : string) : Prop := str_ltb b a = true.

(** The names in descending order: [.sort().reverse()]. *)
Definition desc (l : list string) : list string := List.rev (sort_strings l).

(** The filter [remove_all names] applies to the directory. *)
Definition not_in (names : list string) (f : string) : bool :=
  forallb (fun n => negb (String.eqb f n)) names.

(** [f.startsWith('backup_')] *)
Definition is_backup : string -> bool := starts_with "backup_".

(** Eleven clock readings, not in order. *)
Definition demo_isos : list string :=
  ["2024-03-05T10:00:00.000Z"; "2024-03-01T09:30:15.250Z"; "2024-03-07T23:59:59.999Z";
   "2024-02-28T12:00:00.000Z"; "2024-03-02T08:15:00.500Z"; "2024-03-06T18:45:30.000Z";
   "2024-03-03T07:00:00.001Z"; "2024-03-04T06:30:00.000Z"; "2024-02-29T00:00:00.000Z";
   "2024-03-08T11:11:11.111Z"; "2024-03-09T05:05:05.005Z"].

(** Relations between the world before and after a computation. *)
Definition preserves {S A} (R : world S -> world S -> Prop) (m : M S A) : Prop :=
  forall w, R w (snd (m w)).

Class WorldPreorder {S} (R : world S -> world S -> Prop) : Prop := {
  wp_refl : forall w, R w w;
  wp_trans : forall w1 w2 w3, R w1 w2 -> R w2 w3 -> R w1 w3
}.

Definition same_lastSync {S} (w w' : world S) : Prop := cfg_lastSync w' = cfg_lastSync w.

Definition trace_grows {S} (w w' : world S) : Prop := exists t, trace w' = trace w ++ t.

(** The trace grows by local file and configuration events only. *)
Definition local_only {S} (w w' : world S) : Prop :=
  exists t, trace w' = trace w ++ t /\ forallb (fun e => negb (is_remote_event e)) t = true.

(** A computation that, when it throws, leaves [googleDriveLastSync] as it was. *)
Definition fails_keep_lastSync {S A} (m : M S A) : Prop :=
  forall w e w', m w = (Err e, w') -> cfg_lastSync w' = cfg_lastSync w.

(** What a successful computation returns. *)
Definition returns {S A} (P : A -> Prop) (m : M S A) : Prop :=
  forall w, match fst (m w) with Ok a => P a | Err _ => True end.

(** Concrete inputs. *)
Definition loop_net : network :=
  Network (fun _ _ _ => (HResp 302 (Some "https://script.googleusercontent.com/macros/echo")
                               EmptyString, 100))
          true (fun _ => true) (fun loc _ => loc).

(** The URL of the [n]-th redirect of a chain. *)
Definition hop_url (n : nat) : string :=
  append "https://script.googleusercontent.com/macros/echo?hop=" (z_to_string (Z.of_nat n)).

(** A chain of [hops] redirects from the script URL, each answered in 100 ms,
    ending in a 200 response with the JSON text [{}]. *)
Definition chain_net (hops : nat) : network :=
  Network (fun _ u _ =>
             if String.eqb u "https://script.google.com/macros/s/demo/exec"
             then (HResp 302 (Some (hop_url 1)) EmptyString, 100)
             else match find (fun k => String.eqb u (hop_url k)) (seq 1 hops) with
                  | Some k =>
                      if (k <? hops)%nat then (HResp 302 (Some (hop_url (S k))) EmptyString, 100)
                      else (HResp 200 None "{}", 100)
                  | None => (HResp 404 None EmptyString, 100)
                  end)
          true (fun _ => true) (fun loc _ => loc).

Definition script_url : string := "https://script.google.com/macros/s/demo/exec".

(** The body [downloadFromCloud] posts. *)
Definition download_request : jval := JObj [("action", JStr "download")].

(** The body [uploadToCloud] posts for a document [D]. *)
Definition upload_request (appVersion clientId dataHash : string) (timestamp : Z) (D : jval)
  : jval :=
  JObj [("action", JStr "upload"); ("schemaVersion", JNum SCHEMA_VERSION);
        ("appVersion", JStr appVersion); ("clientId", JStr clientId);
        ("timestamp", JNum timestamp); ("dataHash", JStr dataHash); ("payload", D)].

(** A value whose properties can be read without a [TypeError]. *)
Definition readable (v : jval) : Prop := forall k, js_get v k = Ok (jget v k).

(** The local side [getLocalMetadata] returns when generating the document fails. *)
Definition local_fallback : jval :=
  JObj [("exists", JBool false); ("localTimestamp", JNull);
        ("localHash", JNull); ("recordCount", JNum 0); ("data", JNull)].

Definition demo_doc : jval :=
  JObj [("info", JObj [("export_app", JStr "genshin-wish-export"); ("version", JStr "v4.0")]);
        ("hk4e", JArr [JObj [("uid", JStr "100000001");
                             ("list", JArr [JObj [("id", JStr "1"); ("gacha_type", JStr "301")]])]])].

Definition demo_world {S} (url : string) (gen : res jval) (s : S) : world S :=
  World url "4.1" false "client-1" JNull gen (fun _ => gen) (fun _ => None)
        1700000000000 "2024-01-01T00:00:00.000Z" "uuid-1" "/data" [] s [].

Definition const_remote (r : res jval) (_ : jval) (s : unit) : res jval * unit := (r, s).

Definition empty_drive : AppsScript.gs_state :=
  AppsScript.GState None [] 1700000000000 "2024-01-01_00-00-00" "file-1".

(** The text of an array element and of the members of an object, as
    [serl] builds them. *)
Definition elem_text (x : jval) : list ascii :=
  match serl x with Some s => s | None => lit "null" end.

Fixpoint obj_members (l : list (string * jval)) : list (list ascii) :=
  match l with
  | [] => []
  | (k, x) :: t =>
      match serl x with
      | Some s => (quote_chars k ++ ch 58 :: s) :: obj_members t
      | None => obj_members t
      end
  end.

Definition rest_ok (rest : list ascii) : Prop :=
  match rest with [] => True | c :: _ => is_digit c = false /\ is_ws c = false end.

Definition head_ok (c : ascii) : Prop :=
  is_ws c = false /\ (nat_of_ascii c =? 93)%nat = false /\ (nat_of_ascii c =? 125)%nat = false.

(** What the text of a well-formed value looks like and how it parses back. *)
Definition rt (v : jval) : Prop :=
  wfb v = true ->
  exists s, serl v = Some s /\ (exists c t, s = c :: t /\ head_ok c) /\
    forall n rest, (length s < n)%nat -> rest_ok rest -> pv n (s ++ rest) = Some (v, rest).

(* ------------------------------------------------------------------ *)
(** ** The legacy OAuth Drive module

    [uploadFile] and [downloadFile] talk to the Drive API directly with the
    user's OAuth client.  The Drive is the app's files by id; a call fails
    with the error [drive_outage] when it is set, and an unknown id fails
    with code 404 as the API reports a deleted file. *)

Module DriveOAuth.

(** A thrown error with its [code] property ([undefined] unless the Drive
    API set it). *)
Record gerror : Type := GError { g_exn : exn; g_code : jval }.

Definition plain (e : exn) : gerror := GError e JUndef.

Inductive gres (A : Type) : Type :=
| GOk (a : A)
| GErr (e : gerror).
Arguments GOk {A} a.
Arguments GErr {A} e.

(** A file in the user's Drive: the metadata name and the media body. *)
Record dfile : Type := DFile { d_name : string; d_body : string }.

Inductive oevent : Type :=
| OvSaveConfig                       (* config.save() *)
| OvUpdate (id : string)             (* drive.files.update *)
| OvCreate (id : string)             (* drive.files.create *)
| OvImport30 (data : jval).          (* importUgif30Json(data) *)

Record oworld : Type := OWorld {
  googleClientId : string;           (* config.googleClientId, "" when unset *)
  googleClientSecret : string;
  googleRefreshToken : string;
  googleDriveFileId : string;
  o_gen30 : res jval;                (* generateUigf30Json() *)
  o_import_fails : jval -> option exn;
  drive_files : list (string * dfile);   (* files of the app, by id *)
  drive_next : nat;                  (* the id the next created file gets *)
  drive_outage : option gerror;      (* every Drive call fails with it *)
  o_trace : list oevent
}.

Definition set_fileId (id : string) (w : oworld) : oworld :=
  OWorld (googleClientId w) (googleClientSecret w) (googleRefreshToken w) id
         (o_gen30 w) (o_import_fails w) (drive_files w) (drive_next w) (drive_outage w)
         (o_trace w).

Definition set_drive (fs : list (string * dfile)) (next : nat) (w : oworld) : oworld :=
  OWorld (googleClientId w) (googleClientSecret w) (googleRefreshToken w)
         (googleDriveFileId w) (o_gen30 w) (o_import_fails w) fs next (drive_outage w)
         (o_trace w).

Definition oemit (e : oevent) (w : oworld) : oworld :=
  OWorld (googleClientId w) (googleClientSecret w) (googleRefreshToken w)
         (googleDriveFileId w) (o_gen30 w) (o_import_fails w) (drive_files w) (drive_next w)
         (drive_outage w) (o_trace w ++ [e]).

Fixpoint file_find (id : string) (fs : list (string * dfile)) : option dfile :=
  match fs with
  | [] => None
  | (i, f) :: t => if String.eqb id i then Some f else file_find id t
  end.

Fixpoint file_put (id : string) (f : dfile) (fs : list (string * dfile)) : list (string * dfile) :=
  match fs with
  | [] => []
  | (i, g) :: t => if String.eqb id i then (i, f) :: t else (i, g) :: file_put id f t
  end.

(** The id Drive gives the [n]-th created file. *)
Definition drive_id (n : nat) : string := append "file-" (z_to_string (Z.of_nat n)).

Definition not_found (id : string) : gerror :=
  GError (Error (append "File not found: " (append id "."))) (JNum 404).

(** [drive.files.update({fileId, resource, media})] *)
Definition files_update (id : string) (f : dfile) (w : oworld) : gres unit * oworld :=
  match drive_outage w with
  | Some e => (GErr e, w)
  | None =>
      match file_find id (drive_files w) with
      | None => (GErr (not_found id), w)
      | Some _ => (GOk tt, oemit (OvUpdate id)
                                 (set_drive (file_put id f (drive_files w)) (drive_next w) w))
      end
  end.

(** [drive.files.create({resource, media, fields: 'id'})]: the new id. *)
Definition files_create (f : dfile) (w : oworld) : gres string * oworld :=
  match drive_outage w with
  | Some e => (GErr e, w)
  | None =>
      let id := drive_id (drive_next w) in
      (GOk id, oemit (OvCreate id)
                     (set_drive (drive_files w ++ [(id, f)]) (S (drive_next w)) w))
  end.

(** [response.data] of [drive.files.get({fileId, alt: 'media'})]: the body
    parsed as JSON, or the text when it is not JSON. *)
Definition media_data (body : string) : jval :=
  match JSON_parse body with Ok v => v | Err _ => JStr body end.

Definition files_get (id : string) (w : oworld) : gres jval :=
  match drive_outage w with
  | Some e => GErr e
  | None =>
      match file_find id (drive_files w) with
      | None => GErr (not_found id)
      | Some f => GOk (media_data (d_body f))
      end
  end.

Definition getAuthClient (w : oworld) : gres unit :=
  if String.eqb (googleClientId w) EmptyString || String.eqb (googleClientSecret w) EmptyString
  then GErr (plain (Error "Please set Google Client ID and Secret in settings."))
  else GOk tt.

Definition getDriveClient (w : oworld) : gres unit :=
  match getAuthClient w with
  | GErr e => GErr e
  | GOk _ =>
      if String.eqb (googleRefreshToken w) EmptyString
      then GErr (plain (Error "Not authenticated. Please auth first."))
      else GOk tt
  end.

(** [data.info.uid] *)
Definition data_uid (data : jval) : res jval :=
  match js_get data "info" with
  | Err e => Err e
  | Ok info => js_get info "uid"
  end.

(** The file [uploadFile] sends for a document. *)
Definition upload_file_of (data uid : jval) : dfile :=
  DFile (append "genshin-wish-export-data-" (append (js_to_string uid) ".json"))
        (match JSON_stringify data with Some t => t | None => EmptyString end).

(** The body of the [try] block of [uploadFile]. *)
Definition upload_attempt (f : dfile) (w : oworld) : gres string * oworld :=
  if negb (String.eqb (googleDriveFileId w) EmptyString) then
    match files_update (googleDriveFileId w) f w with
    | (GErr e, w1) => (GErr e, w1)
    | (GOk _, w1) => (GOk "success", w1)
    end
  else
    match files_create f w with
    | (GErr e, w1) => (GErr e, w1)
    | (GOk id, w1) => (GOk "success", oemit OvSaveConfig (set_fileId id w1))
    end.

(** [uploadFile()]; its self-call after a 404 is bounded by [fuel]
    ([None]: out of fuel). *)
Fixpoint uploadFile (fuel : nat) (w : oworld) : option (gres string * oworld) :=
  match fuel with
  | O => None
  | S fuel' =>
      match getDriveClient w with
      | GErr e => Some (GErr e, w)
      | GOk _ =>
      match o_gen30 w with
      | Err e => Some (GErr (plain e), w)
      | Ok data =>
      match data_uid data with
      | Err e => Some (GErr (plain e), w)
      | Ok uid =>
      match upload_attempt (upload_file_of data uid) w with
      | (GOk r, w1) => Some (GOk r, w1)
      | (GErr err, w1) =>
          if js_strict_eq (g_code err) (JNum 404)
             && negb (String.eqb (googleDriveFileId w1) EmptyString)
          then uploadFile fuel' (set_fileId EmptyString w1)
          else Some (GErr err, w1)
      end
      end
      end
      end
  end.

(** [downloadFile()] *)
Definition downloadFile (w : oworld) : gres string * oworld :=
  match getDriveClient w with
  | GErr e => (GErr e, w)
  | GOk _ =>
  if String.eqb (googleDriveFileId w) EmptyString then
    (GErr (plain (Error "No synced file found.")), w)
  else
  match files_get (googleDriveFileId w) w with
  | GErr e => (GErr e, w)
  | GOk data =>
      if truthy data && truthy (jget data "info") && truthy (jget data "list") then
        match o_import_fails w data with
        | Some e => (GErr (plain e), oemit (OvImport30 data) w)
        | None => (GOk "success", oemit (OvImport30 data) w)
        end
      else (GErr (plain (Error "Invalid file format from Drive")), w)
  end
  end.

End DriveOAuth.

(** Samples and names for the further properties. *)

Definition clock_back_world : world unit :=
  set_backup_dir (map (fun t => backup_name (replace_colon_dot t)) demo_isos)
                 (demo_world script_url (Ok demo_doc) tt).

Definition ok_remote : jval -> unit -> res jval * unit :=
  const_remote (Ok (JObj [("status", JStr "ok"); ("payload", demo_doc)])).

Definition upload_payload {S} (APP_VERSION : string) (w : world S) (h : string) (D : jval)
  : jval :=
  upload_request APP_VERSION
    (if String.eqb (cfg_clientId w) EmptyString then uuid w else cfg_clientId w)
    h (now_ms w) D.

Definition demo_hash : string :=
  match calculateHash demo_doc with Ok h => h | Err _ => EmptyString end.

Definition record_count (v : jval) : Z :=
  match v with JArr l => Z.of_nat (List.length l) | _ => 0 end.

Definition drive_with_file : AppsScript.gs_state :=
  AppsScript.GState (Some (AppsScript.DriveFile (AppsScript.jsonResponse demo_doc) 1690000000000 "file-1")) []
         1700000000000 "2024-01-01_00-00-00" "file-2".

Definition demo_upload : jval := upload_request "1.0.0" "client-1" "h" 0 demo_doc.

Definition demo_upload_reply : jval :=
  match fst (AppsScript.uploadData demo_upload drive_with_file) with Ok r => r | Err _ => JNull end.

Definition legacy_doc : jval :=
  JObj [("info", JObj [("uid", JStr "100000001"); ("lang", JStr "en-us")]);
        ("list", JArr [JObj [("id", JStr "1"); ("gacha_type", JStr "301")]])].

Definition legacy_world : DriveOAuth.oworld :=
  DriveOAuth.OWorld "client" "secret" "refresh" "file-gone" (Ok legacy_doc) (fun _ => None) [] 0 None [].

Definition legacy_after_upload : DriveOAuth.oworld :=
  match DriveOAuth.uploadFile 2 legacy_world with Some (_, w1) => w1 | None => legacy_world end.

(* ================================================================== *)
(** * Properties *)

(** ** Sample computations *)

Example ex_doc_text :
  JSON_stringify ex_doc =
  Some (string_of_list_ascii
          (lit "{" ++ quote_chars "info" ++ lit ":{" ++ quote_chars "uid" ++ lit ":"
           ++ quote_chars "100" ++ lit "," ++ quote_chars "n" ++ lit ":-12},"
           ++ quote_chars "list" ++ lit ":[null,true," ++ quote_chars "a b" ++ lit "]}")).
Proof. vm_compute. reflexivity. Qed.

Example ex_doc_parse :
  match JSON_stringify ex_doc with
  | Some s => JSON_parse s
  | None => Err (Error "")
  end =
  Ok (JObj [("info", JObj [("uid", JStr "100"); ("n", JNum (-12))]);
            ("list", JArr [JNull; JBool true; JStr "a b"])]).
Proof. vm_compute. reflexivity. Qed.

Example ex_parse_ws :
  JSON_parse (string_of_list_ascii (lit " [ 1 , {" ++ quote_chars "k" ++ lit " : 0 } ] ")) =
  Ok (JArr [JNum 1; JObj [("k", JNum 0)]]).
Proof. vm_compute. reflexivity. Qed.

Example ex_parse_leading_zero : exists e, JSON_parse "01" = Err e.
Proof. eexists. vm_compute. reflexivity. Qed.

Example sha256_abc :
  sha256_hex (lit "abc") = "ba7816bf8f01cfea414140de5dae2223b00361a396177a9cb410ff61f20015ad".
Proof. vm_compute. reflexivity. Qed.

Example sha256_empty :
  sha256_hex [] = "e3b0c44298fc1c149afbf4c8996fb92427ae41e4649b934ca495991b7852b855".
Proof. vm_compute. reflexivity. Qed.

Example sha256_two_blocks :
  sha256_hex (lit "abcdbcdecdefdefgefghfghighijhijkijkljklmklmnlmnomnopnopq")
  = "248d6a61d20638b8e5c026930c3e6039a33ce45964ff2167f6ecedd419db06c1".
Proof. vm_compute. reflexivity. Qed.


(** ** JSON text round trip *)

Lemma escape_char_parse (c : ascii) (t : list ascii) :
  parse_str (escape_char c ++ t) = option_map (fun p => (c :: fst p, snd p)) (parse_str t).
Proof.
  destruct c as [[] [] [] [] [] [] [] []]; reflexivity.
Qed.

Lemma parse_str_quoted (cs rest : list ascii) :
  parse_str (concat (map escape_char cs) ++ ch 34 :: rest) = Some (cs, rest).
Proof.
  induction cs as [|c cs IH]; [reflexivity|].
  cbn [map concat]. rewrite <- app_assoc, escape_char_parse, IH. reflexivity.
Qed.

Lemma parse_key (k : string) (rest : list ascii) :
  parse_str (concat (map escape_char (list_ascii_of_string k)) ++ ch 34 :: rest)
  = Some (list_ascii_of_string k, rest).
Proof. apply parse_str_quoted. Qed.

Lemma take_digits_uint (u : uint) (rest : list ascii) :
  rest_ok rest -> take_digits (uint_chars u ++ rest) = (u, rest).
Proof.
  intros Hr. induction u; cbn [uint_chars List.app];
    try (cbn; rewrite IHu; reflexivity).
  destruct rest as [|c r]; [reflexivity|].
  destruct Hr as [Hd _]. cbn. rewrite Hd. reflexivity.
Qed.

Lemma nzhead_not_D0 (d x : uint) : nzhead d <> D0 x.
Proof. induction d; cbn; congruence. Qed.

Lemma pos_to_uint_not_D0 (p : positive) (x : uint) : Pos.to_uint p <> D0 x.
Proof.
  intros E.
  assert (Hn : Pos.to_uint p = unorm (Pos.to_uint p)).
  { rewrite <- DecimalPos.Unsigned.to_of, DecimalPos.Unsigned.of_to. reflexivity. }
  rewrite E in Hn. unfold unorm in Hn. cbn [nzhead] in Hn.
  destruct (nzhead x) eqn:Hx; try (inversion Hn; fail).
  - injection Hn as Hx0. subst x. exact (DecimalPos.Unsigned.to_uint_nonzero p E).
  - exact (nzhead_not_D0 _ _ Hx).
Qed.

Lemma parse_num_uint (neg : bool) (u : uint) (rest : list ascii) :
  rest_ok rest -> u <> Nil -> (forall x, u <> D0 x) ->
  parse_num ((if neg then ["-"%char] else []) ++ uint_chars u ++ rest)
  = Some (JNum (Z.of_int (if neg then Neg u else Pos u)), rest).
Proof.
  intros Hr Hnil H0. pose proof (take_digits_uint u rest Hr) as Ht.
  destruct u; [congruence| exfalso; eapply H0; reflexivity| ..];
    destruct neg; cbn [uint_chars List.app] in Ht |- *; unfold parse_num;
    cbv -[take_digits Z.of_int uint_chars app] in Ht |- *; rewrite Ht; reflexivity.
Qed.

Lemma parse_num_z (z : Z) (rest : list ascii) :
  rest_ok rest -> parse_num (z_chars z ++ rest) = Some (JNum z, rest).
Proof.
  intros Hr. unfold z_chars.
  destruct z as [|p|p]; cbn [Z.to_int].
  - reflexivity.
  - pose proof (parse_num_uint false (Pos.to_uint p) rest Hr
                  (DecimalPos.Unsigned.to_uint_nonnil p) (pos_to_uint_not_D0 p)) as H.
    etransitivity; [exact H|]. do 3 f_equal. exact (DecimalZ.of_to (Zpos p)).
  - pose proof (parse_num_uint true (Pos.to_uint p) rest Hr
                  (DecimalPos.Unsigned.to_uint_nonnil p) (pos_to_uint_not_D0 p)) as H.
    etransitivity; [exact H|]. do 3 f_equal. exact (DecimalZ.of_to (Zneg p)).
Qed.

Lemma serl_arr (l : list jval) :
  serl (JArr l) = Some (ch 91 :: join_commas (map elem_text l) ++ [ch 93]).
Proof. reflexivity. Qed.

Lemma serl_obj (l : list (string * jval)) :
  serl (JObj l) = Some (ch 123 :: join_commas (obj_members l) ++ [ch 125]).
Proof. reflexivity. Qed.

Lemma join_cons (s : list ascii) (t : list (list ascii)) :
  t <> [] -> join_commas (s :: t) = s ++ ch 44 :: join_commas t.
Proof. destruct t; [congruence|]. reflexivity. Qed.

Lemma z_chars_head (z : Z) :
  exists c t, z_chars z = c :: t /\ (c = "-"%char \/ is_digit c = true).
Proof.
  assert (Hu : forall u, u <> Nil -> exists c t, uint_chars u = c :: t /\ is_digit c = true).
  { intros u Hu; destruct u; [congruence| ..]; eexists _, _; split; reflexivity. }
  unfold z_chars. destruct z as [|p|p]; cbn [Z.to_int].
  - eexists _, _; split; [reflexivity| right; reflexivity].
  - destruct (Hu _ (DecimalPos.Unsigned.to_uint_nonnil p)) as (c & t & E & D).
    exists c, t; auto.
  - eexists _, _; split; [reflexivity| left; reflexivity].
Qed.

Lemma digit_head_ok (c : ascii) : c = "-"%char \/ is_digit c = true -> head_ok c.
Proof.
  intros [->|H]; [repeat split|].
  destruct c as [[] [] [] [] [] [] [] []]; try (vm_compute in H; discriminate);
    repeat split.
Qed.

Lemma pv_num_head (n : nat) (c : ascii) (t : list ascii) :
  c = "-"%char \/ is_digit c = true -> pv (S n) (c :: t) = parse_num (c :: t).
Proof.
  intros [->|H]; [reflexivity|].
  destruct c as [[] [] [] [] [] [] [] []]; try (vm_compute in H; discriminate);
    reflexivity.
Qed.

Lemma pv_arr_open (n : nat) (c : ascii) (t : list ascii) :
  head_ok c -> pv (S n) (ch 91 :: c :: t) = pa n (c :: t) [].
Proof.
  intros (Hw & H93 & H125). simpl. rewrite Hw. simpl. rewrite H93. reflexivity.
Qed.

Lemma pv_obj_open (n : nat) (c : ascii) (t : list ascii) :
  head_ok c -> pv (S n) (ch 123 :: c :: t) = po n (c :: t) [].
Proof.
  intros (Hw & H93 & H125). simpl. rewrite Hw. simpl. rewrite H125. reflexivity.
Qed.

Lemma rest_ok_ch (n : nat) (rest : list ascii) :
  (n = 44 \/ n = 93 \/ n = 125)%nat -> rest_ok (ch n :: rest).
Proof. intros [->|[->| ->]]; split; reflexivity. Qed.

Lemma pa_rt (l : list jval) :
  Forall rt l -> forallb wfb l = true -> l <> [] ->
  forall m acc rest, (length (join_commas (map elem_text l) ++ [ch 93]) < m)%nat ->
  pa m (join_commas (map elem_text l) ++ ch 93 :: rest) acc = Some (JArr (acc ++ l), rest).
Proof.
  induction l as [|x t IH]; [congruence|].
  intros HF Hw _ m acc rest Hm. inversion HF as [|? ? Hx Ht]; subst.
  apply andb_prop in Hw as [Hwx Hwt].
  destruct (Hx Hwx) as (s & Hs & _ & Hpv).
  assert (Ex : elem_text x = s) by (unfold elem_text; rewrite Hs; reflexivity).
  destruct m as [|m']; [cbn in Hm; lia|].
  destruct t as [|y t'].
  - cbn [map join_commas concat] in *. rewrite Ex in *. rewrite app_nil_r in *.
    rewrite length_app in Hm; cbn in Hm.
    cbn [pa]. rewrite (Hpv m' (ch 93 :: rest)) by (lia || (apply rest_ok_ch; auto)).
    reflexivity.
  - cbn [map] in *. rewrite join_cons in * by discriminate.
    change (elem_text y :: map elem_text t') with (map elem_text (y :: t')) in *.
    remember (join_commas (map elem_text (y :: t'))) as J.
    rewrite Ex in *. rewrite <- app_assoc. cbn [List.app].
    rewrite !length_app in Hm; cbn in Hm.
    cbn [pa]. rewrite (Hpv m' (ch 44 :: J ++ ch 93 :: rest)) by (lia || (apply rest_ok_ch; auto)).
    assert (HJ : (length (J ++ [ch 93]) < m')%nat) by (rewrite length_app; cbn [length]; lia).
    simpl. subst J. rewrite IH by (auto || discriminate).
    rewrite <- app_assoc. reflexivity.
Qed.

Lemma assoc_set_fresh (k : string) (x : jval) (acc : list (string * jval)) :
  existsb (String.eqb k) (map fst acc) = false -> assoc_set k x acc = acc ++ [(k, x)].
Proof.
  induction acc as [|[k' v] acc IH]; intros H; [reflexivity|].
  cbn [map fst existsb] in H. apply orb_false_iff in H as [H1 H2].
  cbn [assoc_set List.app]. rewrite H1, IH by exact H2. reflexivity.
Qed.

Lemma nodup_keys_app_fresh (l1 l2 : list string) (k : string) :
  nodup_keys (l1 ++ k :: l2) = true -> existsb (String.eqb k) l1 = false.
Proof.
  induction l1 as [|a l1 IH]; intros H; [reflexivity|].
  cbn [List.app nodup_keys] in H. apply andb_prop in H as [H1 H2].
  cbn [existsb]. rewrite IH by exact H2.
  apply negb_true_iff in H1. rewrite existsb_app in H1. apply orb_false_iff in H1 as [_ H1].
  cbn [existsb] in H1. apply orb_false_iff in H1 as [H1 _].
  rewrite String.eqb_sym, H1. reflexivity.
Qed.

Lemma po_rt (l : list (string * jval)) :
  Forall (fun kv => rt (snd kv)) l -> forallb (fun kv => wfb (snd kv)) l = true -> l <> [] ->
  forall m acc rest, nodup_keys (map fst (acc ++ l)) = true ->
  (length (join_commas (obj_members l) ++ [ch 125]) < m)%nat ->
  po m (join_commas (obj_members l) ++ ch 125 :: rest) acc = Some (JObj (acc ++ l), rest).
Proof.
  induction l as [|[k x] t IH]; [congruence|].
  intros HF Hw _ m acc rest Hnd Hm. inversion HF as [|? ? Hx Ht]; subst.
  cbn [forallb snd] in Hw. apply andb_prop in Hw as [Hwx Hwt].
  cbn [snd] in Hx. destruct (Hx Hwx) as (s & Hs & _ & Hpv).
  assert (Hfresh : existsb (String.eqb k) (map fst acc) = false).
  { rewrite map_app in Hnd. exact (nodup_keys_app_fresh _ _ _ Hnd). }
  assert (Hnd' : nodup_keys (map fst ((acc ++ [(k, x)]) ++ t)) = true)
    by (rewrite <- app_assoc; exact Hnd).
  destruct m as [|m']; [cbn in Hm; lia|].
  cbn [obj_members] in *. rewrite Hs in *.
  destruct t as [|[k2 y] t'].
  - cbn [join_commas concat map] in *. rewrite app_nil_r in *.
    rewrite !length_app in Hm. cbn [length] in Hm.
    unfold quote_chars. rewrite <- !app_comm_cons, <- !app_assoc. cbn [List.app].
    pose proof (parse_key k) as HK.
    remember (concat (map escape_char (list_ascii_of_string k))) as E.
    simpl. rewrite HK. simpl.
    rewrite (Hpv m' (ch 125 :: rest)) by (lia || (apply rest_ok_ch; auto)).
    simpl. rewrite string_of_list_ascii_of_string, assoc_set_fresh by exact Hfresh.
    reflexivity.
  - inversion Ht as [|? ? Hy Ht']; subst. pose proof Hwt as Hwt0.
    cbn [forallb snd] in Hwt. apply andb_prop in Hwt as [Hwy Hwt'].
    cbn [snd] in Hy. destruct (Hy Hwy) as (s2 & Hs2 & _ & _).
    assert (Hne : obj_members ((k2, y) :: t') <> [])
      by (cbn [obj_members]; rewrite Hs2; discriminate).
    rewrite join_cons in * by exact Hne.
    remember (join_commas (obj_members ((k2, y) :: t'))) as J.
    rewrite <- !app_assoc in Hm. rewrite !length_app in Hm. cbn [length] in Hm.
    assert (HJ : (length (J ++ [ch 125]) < m')%nat) by (rewrite length_app; cbn [length]; lia).
    unfold quote_chars. rewrite <- !app_comm_cons, <- !app_assoc. cbn [List.app].
    pose proof (parse_key k) as HK.
    remember (concat (map escape_char (list_ascii_of_string k))) as E.
    simpl. rewrite HK. simpl.
    try rewrite <- app_comm_cons.
    rewrite (Hpv m' (ch 44 :: J ++ ch 125 :: rest)) by (lia || (apply rest_ok_ch; auto)).
    simpl. rewrite string_of_list_ascii_of_string, assoc_set_fresh by exact Hfresh.
    subst J. rewrite IH by (auto || discriminate).
    rewrite <- app_assoc. reflexivity.
Qed.

Lemma rt_all (v : jval) : rt v.
Proof.
  induction v as [| | b | z | str | l IH | l IH] using jval_ind'; unfold rt; intros Hw.
  - discriminate.
  - eexists; split; [reflexivity|]. split; [eexists _, _; split; [reflexivity| repeat split]|].
    intros [|n] rest Hn _; [cbn in Hn; lia|]. reflexivity.
  - destruct b; (eexists; split; [reflexivity|]);
      (split; [eexists _, _; split; [reflexivity| repeat split]|]);
      intros [|n] rest Hn _; (cbn in Hn; try lia); reflexivity.
  - destruct (z_chars_head z) as (c & t & Hz & Hc).
    exists (z_chars z). split; [reflexivity|]. split.
    + exists c, t. split; [exact Hz| apply digit_head_ok; exact Hc].
    + intros [|n] rest Hn Hr; [cbn in Hn; lia|].
      rewrite Hz. cbn [List.app]. rewrite pv_num_head by exact Hc.
      change (c :: t ++ rest) with ((c :: t) ++ rest). rewrite <- Hz.
      apply parse_num_z; exact Hr.
  - exists (quote_chars str). split; [reflexivity|]. split.
    + eexists _, _; split; [reflexivity| repeat split].
    + intros [|n] rest Hn _; [cbn in Hn; lia|].
      unfold quote_chars. rewrite <- app_comm_cons, <- !app_assoc. cbn [List.app].
      simpl. rewrite parse_str_quoted. simpl. rewrite string_of_list_ascii_of_string.
      reflexivity.
  - cbn [wfb] in Hw.
    exists (ch 91 :: join_commas (map elem_text l) ++ [ch 93]). split; [reflexivity|]. split.
    + eexists _, _; split; [reflexivity| repeat split].
    + intros [|n] rest Hn _; [cbn in Hn; lia|].
      cbn [length] in Hn. rewrite <- app_comm_cons, <- app_assoc. cbn [List.app].
      destruct l as [|x t].
      * reflexivity.
      * inversion IH as [|? ? Hx _]; subst. apply andb_prop in Hw as Hw'. destruct Hw' as [Hwx _].
        destruct (Hx Hwx) as (s & Hs & (c & s' & Hc & Hok) & _).
        assert (Hhead : exists J', join_commas (map elem_text (x :: t)) = c :: J').
        { destruct t as [|y t']; cbn [map join_commas]; unfold elem_text at 1; rewrite Hs, Hc;
            eexists; reflexivity. }
        destruct Hhead as (J' & HJ'). rewrite HJ'. cbn [List.app].
        rewrite pv_arr_open by exact Hok.
        change (c :: J' ++ ch 93 :: rest) with ((c :: J') ++ ch 93 :: rest). rewrite <- HJ'.
        apply pa_rt; [exact IH| exact Hw| discriminate| lia].
  - cbn [wfb] in Hw. apply andb_prop in Hw as [Hnd Hw].
    exists (ch 123 :: join_commas (obj_members l) ++ [ch 125]). split; [reflexivity|]. split.
    + eexists _, _; split; [reflexivity| repeat split].
    + intros [|n] rest Hn _; [cbn in Hn; lia|].
      cbn [length] in Hn. rewrite <- app_comm_cons, <- app_assoc. cbn [List.app].
      destruct l as [|[k x] t].
      * reflexivity.
      * inversion IH as [|? ? Hx _]; subst. pose proof Hw as Hw'.
        cbn [forallb snd] in Hw'. apply andb_prop in Hw' as [Hwx _].
        cbn [snd] in Hx. destruct (Hx Hwx) as (s & Hs & _).
        assert (Hhead : exists J', join_commas (obj_members ((k, x) :: t)) = ch 34 :: J').
        { destruct t as [|y t']; cbn [obj_members join_commas]; rewrite Hs;
            eexists; reflexivity. }
        destruct Hhead as (J' & HJ'). rewrite HJ'. cbn [List.app].
        rewrite pv_obj_open by (repeat split).
        change (ch 34 :: J' ++ ch 125 :: rest) with ((ch 34 :: J') ++ ch 125 :: rest).
        rewrite <- HJ'.
        apply (po_rt _ IH Hw ltac:(discriminate) n [] rest); [exact Hnd| lia].
Qed.

Lemma JSON_parse_chars_serl (v : jval) (s : list ascii) :
  wfb v = true -> serl v = Some s -> JSON_parse_chars s = Ok v.
Proof.
  intros Hw Hs. destruct (rt_all v Hw) as (s' & Hs' & _ & Hpv).
  rewrite Hs in Hs'. injection Hs' as <-.
  pose proof (Hpv (S (2 * length s)) [] ltac:(lia) I) as H. rewrite app_nil_r in H.
  unfold JSON_parse_chars. rewrite H. reflexivity.
Qed.

Lemma JSON_parse_stringify (v : jval) (t : string) :
  wfb v = true -> JSON_stringify v = Some t -> JSON_parse t = Ok v.
Proof.
  unfold JSON_stringify, JSON_parse. intros Hw Ht.
  destruct (serl v) as [s|] eqn:Hs; [|discriminate]. injection Ht as <-.
  rewrite list_ascii_of_string_of_list_ascii. exact (JSON_parse_chars_serl v s Hw Hs).
Qed.

(** ** Frame reasoning on the client monad *)

Create HintDb frame.

Section Frames.
Context {S : Type} (R : world S -> world S -> Prop) `{WorldPreorder S R}.

Lemma preserves_ret {A} (a : A) : preserves R (ret a).
Proof. intros w. apply wp_refl. Qed.

Lemma preserves_throw {A} (e : exn) : preserves R (@throw S A e).
Proof. intros w. apply wp_refl. Qed.

Lemma preserves_lift {A} (r : res A) : preserves R (@lift S A r).
Proof. intros w. apply wp_refl. Qed.

Lemma preserves_gets {A} (f : world S -> A) : preserves R (gets f).
Proof. intros w. apply wp_refl. Qed.

Lemma preserves_get (v : jval) (k : string) : preserves R (@get S v k).
Proof. intros w. apply wp_refl. Qed.

Lemma preserves_generate : preserves R (@generate S).
Proof. intros w. apply wp_refl. Qed.

Lemma preserves_modify (f : world S -> world S) :
  (forall w, R w (f w)) -> preserves R (modify f).
Proof. intros Hf w. apply Hf. Qed.

Lemma preserves_bind {A B} (m : M S A) (k : A -> M S B) :
  preserves R m -> (forall a, preserves R (k a)) -> preserves R (bind m k).
Proof.
  intros Hm Hk w. unfold bind. specialize (Hm w).
  destruct (m w) as [[a|e] w'] eqn:E; cbn in Hm |- *.
  - eapply wp_trans; [exact Hm| apply Hk].
  - exact Hm.
Qed.

Lemma preserves_catch {A} (m : M S A) (h : exn -> M S A) :
  preserves R m -> (forall e, preserves R (h e)) -> preserves R (catch m h).
Proof.
  intros Hm Hh w. unfold catch. specialize (Hm w).
  destruct (m w) as [[a|e] w'] eqn:E; cbn in Hm |- *.
  - exact Hm.
  - eapply wp_trans; [exact Hm| apply Hh].
Qed.
End Frames.

(** Walk a computation: binds, catches and branches. *)
Ltac frame_walk :=
  repeat match goal with
  | |- preserves _ (bind _ _) => refine (preserves_bind _ _ _ _ _); [| intro; cbv beta zeta]
  | |- preserves _ (catch _ _) => refine (preserves_catch _ _ _ _ _); [| intro; cbv beta zeta]
  | |- preserves _ (if ?b then _ else _) => destruct b
  | |- preserves _ (match ?x with _ => _ end) => destruct x
  | |- preserves _ (ret _) => refine (preserves_ret _ _)
  | |- preserves _ (throw _) => refine (preserves_throw _ _)
  | |- preserves _ (lift _) => refine (preserves_lift _ _)
  | |- preserves _ (gets _) => refine (preserves_gets _ _)
  | |- preserves _ (get _ _) => refine (preserves_get _ _ _)
  | |- preserves _ generate => refine (preserves_generate _)
  | |- preserves _ _ => solve [auto with frame]
  end.

#[export] Instance same_lastSync_pre {S} : WorldPreorder (@same_lastSync S).
Proof. split; unfold same_lastSync; [reflexivity| intros w1 w2 w3 H1 H2; congruence]. Qed.

#[export] Instance trace_grows_pre {S} : WorldPreorder (@trace_grows S).
Proof.
  split; unfold trace_grows.
  - intros w. exists []. symmetry. apply app_nil_r.
  - intros w1 w2 w3 [t1 H1] [t2 H2]. exists (t1 ++ t2). rewrite H2, H1, app_assoc. reflexivity.
Qed.

#[export] Instance local_only_pre {S} : WorldPreorder (@local_only S).
Proof.
  split; unfold local_only.
  - intros w. exists []. split; [symmetry; apply app_nil_r| reflexivity].
  - intros w1 w2 w3 [t1 [H1 F1]] [t2 [H2 F2]]. exists (t1 ++ t2).
    split; [rewrite H2, H1, app_assoc; reflexivity| rewrite forallb_app, F1, F2; reflexivity].
Qed.

Lemma request_lastSync {S} (remote : jval -> S -> res jval * S) (p : jval) :
  preserves same_lastSync (request remote p).
Proof.
  intros w. unfold request, same_lastSync. destruct (String.eqb _ _); [reflexivity|].
  destruct (remote p (remote_state w)). reflexivity.
Qed.

Lemma request_trace {S} (remote : jval -> S -> res jval * S) (p : jval) :
  preserves trace_grows (request remote p).
Proof.
  intros w. unfold request, trace_grows. destruct (String.eqb _ _).
  - exists []. symmetry. apply app_nil_r.
  - destruct (remote p (remote_state w)). exists [EvRequest p]. reflexivity.
Qed.

Lemma getClientId_lastSync {S} : preserves same_lastSync (@getClientId S).
Proof. intros w. unfold getClientId, same_lastSync. destruct (String.eqb _ _); reflexivity. Qed.

Lemma getClientId_trace {S} : preserves trace_grows (@getClientId S).
Proof.
  intros w. unfold getClientId, trace_grows. destruct (String.eqb _ _).
  - exists [EvSaveConfig]. reflexivity.
  - exists []. symmetry. apply app_nil_r.
Qed.

Lemma save_config_lastSync {S} : preserves same_lastSync (@save_config S).
Proof. intros w. reflexivity. Qed.

Lemma save_config_trace {S} : preserves trace_grows (@save_config S).
Proof. intros w. exists [EvSaveConfig]. reflexivity. Qed.

Lemma import_with_lastSync {S} ev (d : jval) : preserves same_lastSync (@import_with S ev d).
Proof. intros w. unfold import_with, same_lastSync. destruct (import_fails w d); reflexivity. Qed.

Lemma import_with_trace {S} ev (d : jval) : preserves trace_grows (@import_with S ev d).
Proof. intros w. unfold import_with. exists [ev d]. destruct (import_fails w d); reflexivity. Qed.

Lemma set_lastSync_trace {S} (t : jval) : preserves trace_grows (@modify S (set_lastSync t)).
Proof. intros w. exists []. symmetry. apply app_nil_r. Qed.

Lemma write_entry_local {S} (n : string) : preserves local_only (@write_entry S n).
Proof. intros w. exists [EvWriteBackup n]. split; reflexivity. Qed.

Lemma remove_entry_local {S} (n : string) : preserves local_only (@remove_entry S n).
Proof. intros w. exists [EvRemoveBackup n]. split; reflexivity. Qed.

Lemma remove_all_local {S} (ns : list string) : preserves local_only (@remove_all S ns).
Proof.
  induction ns as [|n ns IH]; cbn [remove_all].
  - exact (preserves_ret _ tt).
  - refine (preserves_bind _ _ _ _ _); [apply remove_entry_local| intros; exact IH].
Qed.

#[export] Hint Resolve request_lastSync request_trace getClientId_lastSync getClientId_trace
  save_config_lastSync save_config_trace import_with_lastSync import_with_trace
  set_lastSync_trace write_entry_local remove_entry_local remove_all_local : frame.

Lemma createLocalBackup_local {S} : preserves local_only (@createLocalBackup S).
Proof. unfold createLocalBackup. frame_walk. Qed.

Lemma downloadFromCloud_trace {S} (remote : jval -> S -> res jval * S) :
  preserves trace_grows (downloadFromCloud remote).
Proof. unfold downloadFromCloud. frame_walk. Qed.

Lemma fkl_of_preserves {S A} (m : M S A) :
  preserves same_lastSync m -> fails_keep_lastSync m.
Proof. intros Hm w e w' E. specialize (Hm w). rewrite E in Hm. exact Hm. Qed.

Lemma fkl_no_fail {S A} (m : M S A) :
  (forall w, is_ok (fst (m w)) = true) -> fails_keep_lastSync m.
Proof. intros Hm w e w' E. specialize (Hm w). rewrite E in Hm. discriminate. Qed.

Lemma fkl_bind {S A B} (m : M S A) (k : A -> M S B) :
  preserves same_lastSync m -> (forall a, fails_keep_lastSync (k a)) ->
  fails_keep_lastSync (bind m k).
Proof.
  intros Hm Hk w e w' E. unfold bind in E. specialize (Hm w).
  destruct (m w) as [[a|e0] w1] eqn:Em; cbn in Hm.
  - rewrite (Hk a w1 e w' E). exact Hm.
  - injection E as _ <-. exact Hm.
Qed.

Ltac fkl_walk :=
  repeat match goal with
  | |- fails_keep_lastSync _ => solve [apply fkl_of_preserves; frame_walk]
  | |- fails_keep_lastSync _ => solve [apply fkl_no_fail; intro; reflexivity]
  | |- fails_keep_lastSync (bind _ _) =>
      apply fkl_bind; [solve [frame_walk] | intro; cbv beta zeta]
  | |- fails_keep_lastSync (if ?b then _ else _) => destruct b
  end.

Lemma uploadToCloud_fkl {S} (remote : jval -> S -> res jval * S) (APP_VERSION : string) :
  fails_keep_lastSync (uploadToCloud remote APP_VERSION).
Proof. unfold uploadToCloud. fkl_walk. Qed.

Lemma downloadFromCloud_fkl {S} (remote : jval -> S -> res jval * S) :
  fails_keep_lastSync (downloadFromCloud remote).
Proof. unfold downloadFromCloud. fkl_walk. Qed.

#[export] Hint Resolve downloadFromCloud_trace : frame.

(** ** Results of successful computations *)

Lemma returns_ret {S A} (P : A -> Prop) (a : A) : P a -> returns P (@ret S A a).
Proof. intros H w. exact H. Qed.

Lemma returns_throw {S A} (P : A -> Prop) (e : exn) : returns P (@throw S A e).
Proof. intros w. exact I. Qed.

Lemma returns_bind {S A B} (P : B -> Prop) (m : M S A) (k : A -> M S B) :
  (forall a, returns P (k a)) -> returns P (bind m k).
Proof.
  intros Hk w. unfold bind. destruct (m w) as [[a|e] w'].
  - apply Hk.
  - exact I.
Qed.

Lemma returns_catch {S A} (P : A -> Prop) (m : M S A) (h : exn -> M S A) :
  returns P m -> (forall e, returns P (h e)) -> returns P (catch m h).
Proof.
  intros Hm Hh w. unfold catch. specialize (Hm w).
  destruct (m w) as [[a|e] w']; [exact Hm| apply Hh].
Qed.

(** A [try]/[catch] whose handler always returns normally never throws. *)
Lemma catch_total {S A} (P : A -> Prop) (m : M S A) (h : exn -> M S A) (w : world S) :
  returns P m -> (forall e, returns P (h e)) -> (forall e w, is_ok (fst (h e w)) = true) ->
  exists a w', catch m h w = (Ok a, w') /\ P a.
Proof.
  intros Hm Hh Hok. unfold catch. specialize (Hm w).
  destruct (m w) as [[a|e] w'] eqn:E; cbn in Hm.
  - exists a, w'. split; [reflexivity| exact Hm].
  - specialize (Hh e w'). specialize (Hok e w').
    destruct (h e w') as [[a|e'] w'']; [| discriminate].
    exists a, w''. split; [reflexivity| exact Hh].
Qed.

Ltac returns_walk :=
  repeat match goal with
  | |- returns _ (bind _ _) => apply returns_bind; intro; cbv beta zeta
  | |- returns _ (catch _ _) => apply returns_catch; [| intro; cbv beta zeta]
  | |- returns _ (throw _) => apply returns_throw
  | |- returns _ (ret _) => apply returns_ret
  | |- returns _ (if ?b then _ else _) => destruct b
  | |- returns _ (match ?x with _ => _ end) => destruct x
  end.

Lemma catch_bind_ok {S A B} (m : M S A) (k : A -> M S B) (h : exn -> M S B)
      (w w1 : world S) (a : A) :
  m w = (Ok a, w1) -> catch (bind m k) h w = catch (k a) h w1.
Proof. intros E. unfold catch, bind. rewrite E. reflexivity. Qed.

Lemma catch_bind_err {S A B} (m : M S A) (k : A -> M S B) (h : exn -> M S B)
      (w w1 : world S) (e : exn) :
  m w = (Err e, w1) -> catch (bind m k) h w = h e w1.
Proof. intros E. unfold catch, bind. rewrite E. reflexivity. Qed.

Lemma catch_ok {S A} (m : M S A) (h : exn -> M S A) (w w' : world S) (a : A) :
  m w = (Ok a, w') -> catch m h w = (Ok a, w').
Proof. intros E. unfold catch. rewrite E. reflexivity. Qed.

Lemma createLocalBackup_ok {S} (w : world S) :
  exists bp w1, createLocalBackup w = (Ok bp, w1).
Proof.
  unfold createLocalBackup, catch.
  match goal with |- context [match ?m w with _ => _ end] => destruct (m w) as [[a|e] w'] end;
    eexists _, _; reflexivity.
Qed.

Lemma error_result_normalized (e : exn) : normalized (error_result e) = true.
Proof. reflexivity. Qed.

Lemma handler_total {S} (m : M S jval) (w : world S) :
  returns (fun v => normalized v = true) m ->
  exists v w', catch m (fun e => ret (error_result e)) w = (Ok v, w') /\ normalized v = true.
Proof.
  intros Hm. apply catch_total; [exact Hm| |].
  - intros e. apply returns_ret. apply error_result_normalized.
  - intros e w0. reflexivity.
Qed.

Lemma legacy_total {S A} (m : M S A) (w : world S) :
  exists msg w', catch (m ;;; ret (JStr "success")) (fun e => ret (JStr (ex_msg e))) w
                 = (Ok (JStr msg), w').
Proof.
  destruct (catch_total (fun v => exists msg, v = JStr msg)
              (m ;;; ret (JStr "success")) (fun e => ret (JStr (ex_msg e))) w)
    as [v [w' [E [msg ->]]]].
  - returns_walk. eexists; reflexivity.
  - intros e. apply returns_ret. eexists; reflexivity.
  - intros e w0. reflexivity.
  - exists msg, w'. exact E.
Qed.

(** ** Steps of [downloadFromCloud] *)

Lemma bind_ok {S A B} (m : M S A) (k : A -> M S B) (w w1 : world S) (a : A) :
  m w = (Ok a, w1) -> bind m k w = k a w1.
Proof. intros E. unfold bind. rewrite E. reflexivity. Qed.

Lemma bind_err {S A B} (m : M S A) (k : A -> M S B) (w w1 : world S) (e : exn) :
  m w = (Err e, w1) -> bind m k w = (Err e, w1).
Proof. intros E. unfold bind. rewrite E. reflexivity. Qed.

Lemma bind_get_ok {S B} (v : jval) (k : string) (x : jval) (f : jval -> M S B) (w : world S) :
  js_get v k = Ok x -> bind (get v k) f w = f x w.
Proof. intros E. unfold bind, get, lift. rewrite E. reflexivity. Qed.

Lemma truthy_js_get (v : jval) (k : string) : truthy v = true -> js_get v k = Ok (jget v k).
Proof. destruct v; try discriminate; reflexivity. Qed.

Lemma bind_trace_prefix {S A B} (m : M S A) (k : A -> M S B) (w : world S) (T : list event) :
  (exists t, trace (snd (m w)) = T ++ t) ->
  (forall a, preserves trace_grows (k a)) ->
  exists t, trace (snd (bind m k w)) = T ++ t.
Proof.
  intros [t E] Hk. unfold bind. destruct (m w) as [[a|e] w'] eqn:Em; cbn in E |- *.
  - destruct (Hk a w') as [t' E']. exists (t ++ t'). rewrite E', E.
    rewrite <- !app_assoc. reflexivity.
  - exists t. exact E.
Qed.

Lemma import_with_trace_eq {S} (ev : jval -> event) (data : jval) (w : world S) :
  trace (snd (import_with ev data w)) = trace w ++ [ev data].
Proof. unfold import_with. destruct (import_fails w data); reflexivity. Qed.

Lemma gt_truthy (v : jval) : js_gt_num v SCHEMA_VERSION = true -> truthy v = true.
Proof.
  destruct v as [| | b | n | s | l | l]; cbn; try discriminate; try reflexivity.
  - destruct b; discriminate.
  - intros H. unfold SCHEMA_VERSION in H. apply Z.ltb_lt in H. apply negb_true_iff, Z.eqb_neq. lia.
  - destruct s; [discriminate| reflexivity].
Qed.

Lemma bind_get_obj {S B} (l : list (string * jval)) (k : string) (f : jval -> M S B)
      (w : world S) :
  bind (get (JObj l) k) f w = f (match assoc_get k l with Some x => x | None => JUndef end) w.
Proof. reflexivity. Qed.

(** ** Steps of the metadata comparison *)

Lemma getCloudMetadata_readable {S} (remote : jval -> S -> res jval * S) :
  returns readable (getCloudMetadata remote).
Proof.
  intros w. unfold getCloudMetadata, bind.
  destruct (request remote _ w) as [[resp|e] w']; cbn; [|exact I].
  destruct resp; cbn; try exact I.
  5: destruct (js_strict_eq _ _); [exact I|].
  all: intros k; reflexivity.
Qed.

Lemma getLocalMetadata_total {S} (w : world S) :
  exists lm w', getLocalMetadata w = (Ok lm, w') /\
    (lm = local_fallback \/ exists rest, lm = JObj (("exists", JBool true) :: rest)).
Proof.
  unfold getLocalMetadata. apply catch_total.
  - returns_walk. right. eexists. reflexivity.
  - intros e. apply returns_ret. left. reflexivity.
  - intros e w0. reflexivity.
Qed.

Lemma degrade_readable {S} (e : exn) : returns readable (@degrade S e).
Proof. intros w k. reflexivity. Qed.

Lemma bind_lift_ok {S A B} (a : A) (k : A -> M S B) (w : world S) :
  bind (lift (Ok a)) k w = k a w.
Proof. reflexivity. Qed.

Lemma side_summary_ok (f : jval -> string) (m : jval) (a b : string) :
  readable m -> exists v, side_summary f m a b = Ok v.
Proof. intros Hm. unfold side_summary. rewrite !Hm. eexists. reflexivity. Qed.

Lemma conflict_of_spec (cm lm : jval) :
  readable cm -> readable lm ->
  exists hc, conflict_of cm lm = Ok hc /\
    (hc = JBool true <-> truthy (jget cm "exists") = true /\ truthy (jget lm "exists") = true /\
                         js_strict_eq (jget cm "cloudHash") (jget lm "localHash") = false) /\
    (truthy (jget cm "exists") = false \/ truthy (jget lm "exists") = false -> truthy hc = false).
Proof.
  intros Hc Hl. unfold conflict_of. rewrite Hc. cbn [negb].
  destruct (truthy (jget cm "exists")) eqn:Ece; cbn [negb].
  - rewrite Hl. cbn [negb]. destruct (truthy (jget lm "exists")) eqn:Ele; cbn [negb].
    + rewrite Hc, Hl. cbn [negb]. eexists. split; [reflexivity|]. split.
      * destruct (js_strict_eq _ _); cbn; split.
        -- discriminate.
        -- intros (_ & _ & H); discriminate.
        -- intros _; auto.
        -- reflexivity.
      * intros [H|H]; discriminate.
    + eexists. split; [reflexivity|]. split.
      * split; [intros H; rewrite H in Ele; discriminate| intros (_ & H & _); discriminate].
      * intros _. exact Ele.
  - eexists. split; [reflexivity|]. split.
    + split; [intros H; rewrite H in Ece; discriminate| intros (H & _); discriminate].
    + intros _. exact Ece.
Qed.

(** ** Property writes and the endpoint's replies *)

Lemma wfb_pair (a b : string) (x y : jval) :
  String.eqb a b = false -> wfb x = true -> wfb y = true ->
  wfb (JObj [(a, x); (b, y)]) = true /\ wfb (JObj [(b, y); (a, x)]) = true.
Proof.
  intros Hab Hx Hy. cbn. rewrite Hab, Hx, Hy.
  rewrite String.eqb_sym, Hab. split; reflexivity.
Qed.

Lemma serl_some (v : jval) : wfb v = true -> exists s, serl v = Some s.
Proof. intros Hw. destruct (rt_all v Hw) as (s & Hs & _). exists s. exact Hs. Qed.

Lemma assoc_get_set_same (k : string) (x : jval) (l : list (string * jval)) :
  assoc_get k (assoc_set k x l) = Some x.
Proof.
  induction l as [|[k' v] t IH]; cbn.
  - rewrite String.eqb_refl. reflexivity.
  - destruct (String.eqb k k') eqn:E; cbn.
    + apply String.eqb_eq in E. subst. rewrite String.eqb_refl. reflexivity.
    + rewrite E. exact IH.
Qed.

Lemma assoc_get_set_other (k k2 : string) (x : jval) (l : list (string * jval)) :
  String.eqb k2 k = false -> assoc_get k2 (assoc_set k x l) = assoc_get k2 l.
Proof.
  intros Hne. induction l as [|[k' v] t IH]; cbn.
  - rewrite Hne. reflexivity.
  - destruct (String.eqb k k') eqn:E; cbn.
    + apply String.eqb_eq in E. subst k'. rewrite Hne. reflexivity.
    + rewrite IH. reflexivity.
Qed.

Lemma existsb_keys_set (k k2 : string) (x : jval) (l : list (string * jval)) :
  existsb (String.eqb k2) (map fst (assoc_set k x l))
  = existsb (String.eqb k2) (map fst l) || String.eqb k2 k.
Proof.
  induction l as [|[k' v] t IH]; cbn.
  - rewrite orb_false_r. reflexivity.
  - destruct (String.eqb k k') eqn:E; cbn.
    + apply String.eqb_eq in E. subst k'.
      destruct (String.eqb k2 k); cbn; [reflexivity| rewrite orb_false_r; reflexivity].
    + rewrite IH. rewrite orb_assoc. reflexivity.
Qed.

Lemma nodup_keys_set (k : string) (x : jval) (l : list (string * jval)) :
  nodup_keys (map fst l) = true -> nodup_keys (map fst (assoc_set k x l)) = true.
Proof.
  induction l as [|[k' v] t IH]; cbn; intros H.
  - reflexivity.
  - apply andb_prop in H as [H1 H2].
    destruct (String.eqb k k') eqn:E; cbn.
    + rewrite H1, H2. reflexivity.
    + rewrite existsb_keys_set, IH by exact H2.
      apply negb_true_iff in H1. rewrite H1. cbn.
      rewrite String.eqb_sym, E. reflexivity.
Qed.

Lemma forallb_wfb_set (k : string) (x : jval) (l : list (string * jval)) :
  wfb x = true -> forallb (fun kv => wfb (snd kv)) l = true ->
  forallb (fun kv => wfb (snd kv)) (assoc_set k x l) = true.
Proof.
  intros Hx. induction l as [|[k' v] t IH]; cbn; intros H.
  - rewrite Hx. reflexivity.
  - apply andb_prop in H as [H1 H2].
    destruct (String.eqb k k'); cbn; rewrite ?Hx, ?H1, ?H2, ?IH by exact H2; reflexivity.
Qed.

Lemma wfb_set (k : string) (x : jval) (l : list (string * jval)) :
  wfb x = true -> wfb (JObj l) = true -> wfb (JObj (assoc_set k x l)) = true.
Proof.
  intros Hx Hw. cbn [wfb] in *. apply andb_prop in Hw as [H1 H2].
  rewrite nodup_keys_set, forallb_wfb_set by assumption. reflexivity.
Qed.

Lemma strip_set (k : string) (x : jval) (l : list (string * jval)) :
  is_provenance k = true ->
  filter (fun kv => negb (is_provenance (fst kv))) (assoc_set k x l)
  = filter (fun kv => negb (is_provenance (fst kv))) l.
Proof.
  intros Hk. induction l as [|[k' v] t IH]; cbn.
  - rewrite Hk. reflexivity.
  - destruct (String.eqb k k') eqn:E; cbn.
    + apply String.eqb_eq in E. subst k'. rewrite Hk. reflexivity.
    + rewrite IH. reflexivity.
Qed.

Lemma countRecords_set (k : string) (x : jval) (l : list (string * jval)) :
  String.eqb "hk4e" k = false -> String.eqb "list" k = false ->
  countRecords (JObj (assoc_set k x l)) = countRecords (JObj l).
Proof.
  intros H1 H2. unfold countRecords. cbn [truthy negb js_get].
  rewrite !assoc_get_set_other by assumption. reflexivity.
Qed.

Lemma stringify_some (v : jval) : wfb v = true -> exists t, JSON_stringify v = Some t.
Proof. intros Hw. destruct (serl_some v Hw) as [s Hs]. exists (string_of_list_ascii s). unfold JSON_stringify. rewrite Hs. reflexivity. Qed.

Lemma reply_parse (d : jval) : wfb d = true -> JSON_parse (AppsScript.jsonResponse d) = Ok d.
Proof.
  intros Hw. destruct (stringify_some d Hw) as [t Ht].
  unfold AppsScript.jsonResponse. rewrite Ht. exact (JSON_parse_stringify d t Hw Ht).
Qed.

Lemma wfb_js_or_str (a b : string) : wfb (js_or (JStr a) (JStr b)) = true.
Proof. unfold js_or. destruct (truthy (JStr a)); reflexivity. Qed.

(** ** Backup rotation *)

Lemma str_ltb_lt a b : str_ltb a b = true <-> String_as_OT.lt a b.
Proof.
  unfold str_ltb. rewrite <- String_as_OT.cmp_lt. unfold String_as_OT.cmp.
  destruct (String.compare a b); split; congruence.
Qed.

Lemma str_ltb_trans a b c : str_ltb a b = true -> str_ltb b c = true -> str_ltb a c = true.
Proof. rewrite !str_ltb_lt. apply String_as_OT.lt_trans. Qed.

Lemma str_ltb_irrefl a : str_ltb a a = false.
Proof.
  destruct (str_ltb a a) eqn:E; [|reflexivity].
  apply str_ltb_lt, String_as_OT.lt_not_eq in E. exfalso; apply E; reflexivity.
Qed.

Lemma str_ltb_total a b : a <> b -> str_ltb a b = true \/ str_ltb b a = true.
Proof.
  intros Hne. unfold str_ltb. rewrite (String.compare_antisym b a).
  destruct (String.compare a b) eqn:E; simpl; auto.
  apply String.compare_eq_iff in E. contradiction.
Qed.

Lemma str_ltb_asym a b : str_ltb a b = true -> str_ltb b a = false.
Proof.
  intros H. destruct (str_ltb b a) eqn:E; [|reflexivity].
  pose proof (str_ltb_trans _ _ _ H E). rewrite str_ltb_irrefl in H0. discriminate.
Qed.


Lemma ins_desc_perm x d : Permutation (ins_desc x d) (x :: d).
Proof.
  induction d as [|y t IH]; simpl; [reflexivity|].
  destruct (str_ltb y x); [reflexivity|].
  rewrite IH. apply perm_swap.
Qed.

Lemma ins_desc_sorted x d :
  StronglySorted str_gt d -> ~ In x d -> StronglySorted str_gt (ins_desc x d).
Proof.
  induction d as [|y t IH]; intros Hs Hn; simpl.
  - repeat constructor.
  - apply StronglySorted_inv in Hs as [Ht Hf].
    destruct (str_ltb y x) eqn:E.
    + constructor; [constructor; assumption|].
      constructor; [exact E|].
      eapply Forall_impl; [|exact Hf]. intros z Hz. exact (str_ltb_trans _ _ _ Hz E).
    + constructor.
      * apply IH; [exact Ht|]. intros H; apply Hn; right; exact H.
      * apply (Permutation_Forall (Permutation_sym (ins_desc_perm x t))).
        constructor; [|exact Hf].
        assert (Hne : x <> y) by (intros ->; apply Hn; left; reflexivity).
        destruct (str_ltb_total x y Hne) as [H|H]; [exact H|congruence].
Qed.

Lemma sorted_unique l1 l2 :
  StronglySorted str_gt l1 -> StronglySorted str_gt l2 ->
  (forall x, In x l1 <-> In x l2) -> l1 = l2.
Proof.
  revert l2. induction l1 as [|a l1 IH]; intros [|b l2] H1 H2 Hin.
  - reflexivity.
  - exfalso. apply (proj2 (Hin b)). left; reflexivity.
  - exfalso. apply (proj1 (Hin a)). left; reflexivity.
  - apply StronglySorted_inv in H1 as [H1 F1]. apply StronglySorted_inv in H2 as [H2 F2].
    assert (a = b) as <-.
    { destruct (String.eqb_spec a b) as [|Hne]; [assumption|exfalso].
      assert (Ha : In a l2) by (destruct (proj1 (Hin a) (or_introl eq_refl)); [congruence|assumption]).
      assert (Hb : In b l1) by (destruct (proj2 (Hin b) (or_introl eq_refl)); [congruence|assumption]).
      pose proof (proj1 (Forall_forall _ _) F2 a Ha) as E2.
      pose proof (proj1 (Forall_forall _ _) F1 b Hb) as E1.
      unfold str_gt in *. rewrite (str_ltb_asym _ _ E1) in E2. discriminate. }
    f_equal. apply IH; [exact H1|exact H2|].
    intros x. split; intros Hx.
    + destruct (proj1 (Hin x) (or_intror Hx)) as [<-|]; [|assumption].
      pose proof (proj1 (Forall_forall _ _) F1 a Hx). unfold str_gt in H.
      rewrite str_ltb_irrefl in H. discriminate.
    + destruct (proj2 (Hin x) (or_intror Hx)) as [<-|]; [|assumption].
      pose proof (proj1 (Forall_forall _ _) F2 a Hx). unfold str_gt in H.
      rewrite str_ltb_irrefl in H. discriminate.
Qed.

Lemma insert_sorted_perm x l : Permutation (insert_sorted x l) (x :: l).
Proof.
  induction l as [|y t IH]; simpl; [reflexivity|].
  destruct (str_ltb y x); [|reflexivity].
  rewrite IH. apply perm_swap.
Qed.

Lemma sort_strings_perm l : Permutation (sort_strings l) l.
Proof.
  induction l as [|x t IH]; simpl; [reflexivity|].
  rewrite insert_sorted_perm. constructor. exact IH.
Qed.

Lemma insert_sorted_sorted x l :
  StronglySorted str_lt l -> ~ In x l -> StronglySorted str_lt (insert_sorted x l).
Proof.
  induction l as [|y t IH]; intros Hs Hn; simpl.
  - repeat constructor.
  - apply StronglySorted_inv in Hs as [Ht Hf].
    destruct (str_ltb y x) eqn:E.
    + constructor.
      * apply IH; [exact Ht|]. intros H; apply Hn; right; exact H.
      * apply (Permutation_Forall (Permutation_sym (insert_sorted_perm x t))).
        constructor; [exact E|exact Hf].
    + constructor; [constructor; assumption|].
      assert (Hxy : str_lt x y).
      { assert (Hne : x <> y) by (intros ->; apply Hn; left; reflexivity).
        destruct (str_ltb_total x y Hne) as [H|H]; [exact H|congruence]. }
      constructor; [exact Hxy|].
      eapply Forall_impl; [|exact Hf]. intros z Hz. exact (str_ltb_trans _ _ _ Hxy Hz).
Qed.

Lemma sort_strings_sorted l : NoDup l -> StronglySorted str_lt (sort_strings l).
Proof.
  induction l as [|x t IH]; intros Hd; simpl; [constructor|].
  apply NoDup_cons_iff in Hd as [Hn Hd].
  apply insert_sorted_sorted; [exact (IH Hd)|].
  intros H. apply Hn. apply (Permutation_in _ (sort_strings_perm t)). exact H.
Qed.

Lemma StronglySorted_snoc {A} (R : A -> A -> Prop) l a :
  StronglySorted R l -> Forall (fun x => R x a) l -> StronglySorted R (l ++ [a]).
Proof.
  induction l as [|x t IH]; intros Hs Hf; simpl.
  - repeat constructor.
  - apply StronglySorted_inv in Hs as [Ht Hft]. inversion Hf; subst.
    constructor; [apply IH; assumption|].
    apply Forall_app; split; [exact Hft|constructor; [assumption|constructor]].
Qed.

Lemma StronglySorted_rev l : StronglySorted str_lt l -> StronglySorted str_gt (List.rev l).
Proof.
  induction l as [|x t IH]; intros Hs; simpl; [constructor|].
  apply StronglySorted_inv in Hs as [Ht Hf].
  apply StronglySorted_snoc; [exact (IH Ht)|].
  apply Forall_forall. intros z Hz. apply in_rev in Hz.
  exact (proj1 (Forall_forall _ _) Hf z Hz).
Qed.


Lemma desc_in l x : In x (desc l) <-> In x l.
Proof.
  unfold desc. rewrite <- in_rev. split; apply Permutation_in;
    [|apply Permutation_sym]; apply sort_strings_perm.
Qed.

Lemma desc_sorted l : NoDup l -> StronglySorted str_gt (desc l).
Proof. intros H. apply StronglySorted_rev, sort_strings_sorted, H. Qed.

Lemma desc_nodup l : NoDup l -> NoDup (desc l).
Proof.
  intros H. apply NoDup_rev. eapply Permutation_NoDup; [apply Permutation_sym, sort_strings_perm|exact H].
Qed.

Lemma desc_length l : length (desc l) = length l.
Proof. unfold desc. rewrite length_rev. apply Permutation_length, sort_strings_perm. Qed.

Lemma StronglySorted_firstn {A} (R : A -> A -> Prop) n l :
  StronglySorted R l -> StronglySorted R (firstn n l).
Proof.
  revert l. induction n as [|n IH]; intros [|x t] Hs; simpl; [constructor|constructor|constructor|].
  apply StronglySorted_inv in Hs as [Ht Hf]. constructor; [apply IH; exact Ht|].
  apply Forall_forall. intros z Hz. apply (proj1 (Forall_forall _ _) Hf).
  rewrite <- (firstn_skipn n t). apply in_or_app; left; exact Hz.
Qed.

Lemma firstn_ins_desc n x d :
  firstn n (ins_desc x (firstn n d)) = firstn n (ins_desc x d).
Proof.
  revert d. induction n as [|n IH]; intros [|y t]; simpl; try reflexivity.
  destruct (str_ltb y x); simpl.
  - f_equal. destruct n as [|n]; [reflexivity|].
    change (firstn (S n) (y :: firstn (S n) t)) with (firstn (S n) (firstn (S (S n)) (y :: t))).
    rewrite firstn_firstn. f_equal. lia.
  - f_equal. apply IH.
Qed.



Lemma filter_filter' {A} (f g : A -> bool) l :
  filter f (filter g l) = filter (fun x => andb (g x) (f x)) l.
Proof.
  induction l as [|a t IH]; simpl; [reflexivity|].
  destruct (g a); simpl; [destruct (f a); simpl|]; rewrite IH; reflexivity.
Qed.

Lemma filter_comm {A} (f g : A -> bool) l :
  filter f (filter g l) = filter g (filter f l).
Proof.
  rewrite !filter_filter'. apply filter_ext. intros a. apply andb_comm.
Qed.

Lemma forallb_neq_iff (f : string) names :
  forallb (fun n => negb (String.eqb f n)) names = true <-> ~ In f names.
Proof.
  rewrite forallb_forall. split.
  - intros H Hin. specialize (H f Hin). rewrite String.eqb_refl in H. discriminate.
  - intros H n Hn. destruct (String.eqb_spec f n) as [->|]; [contradiction|reflexivity].
Qed.

Section Rotation.
Context {S : Type}.

Lemma remove_all_ok (names : list string) (w : world S) :
  remove_all names w = (Ok tt, snd (remove_all names w)).
Proof.
  revert w. induction names as [|n t IH]; intros w; [reflexivity|].
  simpl. unfold bind, remove_entry, modify. apply IH.
Qed.

Lemma remove_all_dir (names : list string) (w : world S) :
  backup_dir (snd (remove_all names w))
  = filter (fun f => forallb (fun n => negb (String.eqb f n)) names) (backup_dir w).
Proof.
  revert w. induction names as [|n t IH]; intros w.
  - simpl. induction (backup_dir w) as [|a l IHl]; simpl; [|rewrite <- IHl]; reflexivity.
  - simpl. unfold bind, remove_entry, modify. rewrite IH. cbn [backup_dir emit set_backup_dir].
    rewrite filter_filter'. reflexivity.
Qed.

Lemma remove_all_generate (names : list string) (w : world S) :
  fst (generate (snd (remove_all names w))) = fst (generate w).
Proof.
  revert w. induction names as [|n t IH]; intros w; [reflexivity|].
  cbn [remove_all]. unfold bind, remove_entry, modify.
  etransitivity; [apply IH|reflexivity].
Qed.

Lemma createLocalBackup_written (w : world S) (d : jval) :
  fst (generate w) = Ok d ->
  let x := backup_name (replace_colon_dot (iso_now w)) in
  let dir1 := if existsb (String.eqb x) (backup_dir w) then backup_dir w
              else backup_dir w ++ [x] in
  snd (createLocalBackup w)
  = snd (remove_all (prune_list dir1) (emit (EvWriteBackup x) (set_backup_dir dir1 w))).
Proof.
  intros Hg. unfold createLocalBackup, catch, bind, gets.
  assert (E : generate w = (Ok d, w)) by (rewrite <- Hg; reflexivity).
  rewrite E. unfold write_entry, modify. rewrite remove_all_ok. reflexivity.
Qed.
End Rotation.

Lemma ins_desc_in x d y : In y (ins_desc x d) <-> x = y \/ In y d.
Proof.
  change (x = y \/ In y d) with (In y (x :: d)).
  split; apply Permutation_in; [|apply Permutation_sym]; apply ins_desc_perm.
Qed.


Lemma in_nodup_split (a b : list string) y :
  NoDup (a ++ b) -> (In y (a ++ b) /\ ~ In y b <-> In y a).
Proof.
  intros Hd. split.
  - intros [H1 H2]. apply in_app_or in H1 as [H1|H1]; [exact H1|contradiction].
  - intros Ha. split; [apply in_or_app; left; exact Ha|].
    induction a as [|z a IH]; [destruct Ha|].
    simpl in Hd. apply NoDup_cons_iff in Hd as [Hn Hd].
    destruct Ha as [<-|Ha].
    + intros Hb. apply Hn, in_or_app. right; exact Hb.
    + exact (IH Hd Ha).
Qed.

Lemma desc_snoc T x :
  NoDup T -> ~ In x T -> desc (T ++ [x]) = ins_desc x (desc T).
Proof.
  intros Hd Hn.
  assert (Hd' : NoDup (T ++ [x])).
  { apply NoDup_app; [exact Hd|repeat constructor; intros []|].
    intros a Ha [<-|[]]. contradiction. }
  apply sorted_unique.
  - apply desc_sorted, Hd'.
  - apply ins_desc_sorted; [apply desc_sorted, Hd|]. rewrite desc_in. exact Hn.
  - intros y. rewrite desc_in, ins_desc_in, in_app_iff.
    simpl. rewrite desc_in. tauto.
Qed.

Lemma rotate_step (T B : list string) (x : string) :
  NoDup T -> ~ In x T -> NoDup B ->
  (forall y, In y B <-> In y (firstn 10 (desc T))) ->
  NoDup (filter (not_in (skipn 10 (desc (B ++ [x])))) (B ++ [x])) /\
  (forall y, In y (filter (not_in (skipn 10 (desc (B ++ [x])))) (B ++ [x]))
             <-> In y (firstn 10 (desc (T ++ [x])))).
Proof.
  intros HT Hx HB Hin.
  assert (HsubT : forall y, In y (firstn 10 (desc T)) -> In y T).
  { intros y Hy. apply desc_in. rewrite <- (firstn_skipn 10 (desc T)).
    apply in_or_app; left; exact Hy. }
  assert (HxB : ~ In x B) by (intros H; apply Hx, HsubT, Hin, H).
  assert (HB' : NoDup (B ++ [x])).
  { apply NoDup_app; [exact HB|repeat constructor; intros []|].
    intros a Ha [<-|[]]. contradiction. }
  assert (HP : desc (B ++ [x]) = ins_desc x (firstn 10 (desc T))).
  { apply sorted_unique.
    - apply desc_sorted, HB'.
    - apply ins_desc_sorted.
      + apply StronglySorted_firstn, desc_sorted, HT.
      + intros H; apply Hx, HsubT, H.
    - intros y. rewrite desc_in, ins_desc_in, in_app_iff, Hin.
      simpl. tauto. }
  split.
  - apply NoDup_filter, HB'.
  - intros y. rewrite filter_In. unfold not_in. rewrite forallb_neq_iff.
    rewrite <- (desc_in (B ++ [x]) y).
    rewrite <- (firstn_skipn 10 (desc (B ++ [x]))) at 1.
    assert (HPd : NoDup (firstn 10 (desc (B ++ [x])) ++ skipn 10 (desc (B ++ [x]))))
      by (rewrite firstn_skipn; apply desc_nodup, HB').
    rewrite (in_nodup_split _ _ _ HPd).
    rewrite HP, (desc_snoc T x HT Hx), firstn_ins_desc. reflexivity.
Qed.


Lemma prefix_append (p u : string) : String.prefix p (append p u) = true.
Proof.
  induction p as [|a p IH]; [destruct u; reflexivity|].
  simpl. destruct (ascii_dec a a) as [_|n]; [exact IH|contradiction].
Qed.

Lemma backup_name_is_backup s : is_backup (backup_name s) = true.
Proof. apply prefix_append. Qed.

Section Run.
Context {S : Type}.

Lemma run_backups_inv (isos : list string) :
  forall (T : list string) (w : world S),
  (exists d, fst (generate w) = Ok d) ->
  NoDup (T ++ map (fun t => backup_name (replace_colon_dot t)) isos) ->
  NoDup (filter is_backup (backup_dir w)) ->
  (forall y, In y (filter is_backup (backup_dir w)) <-> In y (firstn 10 (desc T))) ->
  NoDup (filter is_backup (backup_dir (run_backups isos w))) /\
  (forall y, In y (filter is_backup (backup_dir (run_backups isos w)))
             <-> In y (firstn 10 (desc (T ++ map (fun t => backup_name (replace_colon_dot t)) isos)))).
Proof.
  induction isos as [|t rest IH]; intros T w [d Hg] Hd HB Hin.
  - simpl. rewrite app_nil_r. split; assumption.
  - cbn [run_backups map]. cbn [map] in Hd.
    set (x := backup_name (replace_colon_dot t)) in *.
    set (R := map (fun t => backup_name (replace_colon_dot t)) rest) in *.
    replace (T ++ x :: R) with ((T ++ [x]) ++ R) in Hd |- * by (rewrite <- app_assoc; reflexivity).
    assert (HT : NoDup T) by exact (NoDup_app_remove_r _ _ (NoDup_app_remove_r _ _ Hd)).
    assert (Hx : ~ In x T).
    { intros H. apply (NoDup_app_remove_r _ _) in Hd.
      revert H Hd. clear. induction T as [|a T IH]; intros H Hd; [destruct H|].
      simpl in Hd. apply NoDup_cons_iff in Hd as [Hn Hd]. destruct H as [<-|H].
      - apply Hn, in_or_app. right; left; reflexivity.
      - exact (IH H Hd). }
    set (w0 := set_iso_now t w).
    assert (Hg0 : fst (generate w0) = Ok d) by exact Hg.
    pose proof (createLocalBackup_written w0 d Hg0) as Hw. cbv zeta in Hw.
    change (iso_now w0) with t in Hw. fold x in Hw.
    assert (Hxd : existsb (String.eqb x) (backup_dir w0) = false).
    { apply Bool.not_true_iff_false. intros H. apply existsb_exists in H as [f [Hf Hef]].
      apply String.eqb_eq in Hef. subst f. apply Hx.
      assert (Hxb : In x (filter is_backup (backup_dir w))) by (apply filter_In; split; [exact Hf|apply backup_name_is_backup]).
      apply Hin in Hxb. apply desc_in. rewrite <- (firstn_skipn 10 (desc T)).
      apply in_or_app; left; exact Hxb. }
    rewrite Hxd in Hw.
    assert (Hbx : is_backup x = true) by apply backup_name_is_backup.
    assert (Hdir : filter is_backup (backup_dir w ++ [x]) = filter is_backup (backup_dir w) ++ [x])
      by (rewrite filter_app; cbn [filter]; rewrite Hbx; reflexivity).
    apply IH.
    + exists d. rewrite Hw, remove_all_generate. exact Hg.
    + exact Hd.
    + rewrite Hw, remove_all_dir. cbn [backup_dir emit set_backup_dir].
      rewrite filter_comm. change (backup_dir w0) with (backup_dir w).
      unfold prune_list. fold is_backup. rewrite Hdir.
      exact (proj1 (rotate_step T _ x HT Hx HB Hin)).
    + rewrite Hw, remove_all_dir. cbn [backup_dir emit set_backup_dir].
      rewrite filter_comm. change (backup_dir w0) with (backup_dir w).
      unfold prune_list. fold is_backup. rewrite Hdir.
      exact (proj2 (rotate_step T _ x HT Hx HB Hin)).
Qed.
End Run.

Lemma string_length_append (a b : string) :
  String.length (append a b) = (String.length a + String.length b)%nat.
Proof. induction a as [|c a IH]; simpl; [reflexivity|rewrite IH; reflexivity]. Qed.

Lemma compare_refl (s : string) : String.compare s s = Eq.
Proof. apply String_as_OT.cmp_eq. reflexivity. Qed.

Lemma compare_append_suffix (a b s : string) :
  String.length a = String.length b ->
  String.compare (append a s) (append b s) = String.compare a b.
Proof.
  revert b. induction a as [|c a IH]; intros [|d b] Hl; simpl in Hl; try discriminate.
  - apply compare_refl.
  - simpl. destruct (Ascii.compare c d); [apply IH; congruence|reflexivity|reflexivity].
Qed.

Lemma backup_name_ltb (a b : string) :
  String.length a = String.length b ->
  str_ltb (backup_name a) (backup_name b) = str_ltb a b.
Proof.
  intros Hl. unfold str_ltb, backup_name. simpl. rewrite compare_append_suffix by exact Hl.
  reflexivity.
Qed.

Lemma backup_name_inj (a b : string) : backup_name a = backup_name b -> a = b.
Proof.
  unfold backup_name. simpl. intros H. injection H as H.
  assert (Hl : String.length a = String.length b).
  { apply (f_equal String.length) in H. rewrite !string_length_append in H. lia. }
  apply String.compare_eq_iff. rewrite <- (compare_append_suffix a b ".json" Hl), H.
  apply compare_refl.
Qed.

Lemma same_length_in (l : list string) :
  same_length l = true ->
  forall a b, In a l -> In b l -> String.length a = String.length b.
Proof.
  destruct l as [|z t]; intros Hs a b Ha Hb; [destruct Ha|].
  simpl in Hs. rewrite forallb_forall in Hs.
  assert (Hz : forall c, In c (z :: t) -> String.length c = String.length z).
  { intros c [<-|Hc]; [reflexivity|]. apply Nat.eqb_eq, Hs, Hc. }
  rewrite (Hz a Ha), (Hz b Hb). reflexivity.
Qed.

Lemma NoDup_map_inj {A B} (f : A -> B) (l : list A) :
  (forall a b, f a = f b -> a = b) -> NoDup l -> NoDup (map f l).
Proof.
  intros Hf Hd. induction Hd as [|a t Hn Hd IH]; simpl; constructor; [|exact IH].
  intros H. apply in_map_iff in H as [b [Hb Hbt]]. apply Hf in Hb. subst. contradiction.
Qed.

Lemma StronglySorted_map_mono (f : string -> string) (l : list string) :
  (forall a b, In a l -> In b l -> str_ltb (f a) (f b) = str_ltb a b) ->
  StronglySorted str_gt l -> StronglySorted str_gt (map f l).
Proof.
  induction l as [|z t IH]; intros Hm Hs; simpl; [constructor|].
  apply StronglySorted_inv in Hs as [Ht Hf]. constructor.
  - apply IH; [|exact Ht]. intros a b Ha Hb. apply Hm; right; assumption.
  - apply Forall_forall. intros y Hy. apply in_map_iff in Hy as [b [<- Hb]].
    unfold str_gt. rewrite Hm by (simpl; auto).
    exact (proj1 (Forall_forall _ _) Hf b Hb).
Qed.

Lemma desc_map_backup_name (St : list string) :
  NoDup St -> same_length St = true ->
  desc (map backup_name St) = map backup_name (desc St).
Proof.
  intros Hd Hs. apply sorted_unique.
  - apply desc_sorted, NoDup_map_inj; [exact backup_name_inj|exact Hd].
  - apply StronglySorted_map_mono; [|apply desc_sorted, Hd].
    intros a b Ha Hb. apply backup_name_ltb.
    apply (same_length_in St Hs); apply desc_in; assumption.
  - intros y. rewrite desc_in, !in_map_iff. split; intros [a [Ha Hin]]; exists a;
      split; try assumption; apply desc_in; assumption.
Qed.

(* ================================================================== *)
(** * The specification's claims *)

(** C8: when an upload or a download fails — the endpoint cannot be
    reached, the cloud answers with an error, the response is malformed,
    the schema version is too new, or the import fails — the
    [lastSync] value of the configuration is left as it was. *)
Theorem lastSync_unchanged_on_failure {S} (remote : jval -> S -> res jval * S)
        (APP_VERSION : string) (w w' : world S) (e : exn) :
  (uploadToCloud remote APP_VERSION w = (Err e, w')
   \/ downloadFromCloud remote w = (Err e, w')) ->
  cfg_lastSync w' = cfg_lastSync w.
Proof.
  intros [H | H].
  - exact (uploadToCloud_fkl remote APP_VERSION w e w' H).
  - exact (downloadFromCloud_fkl remote w e w' H).
Qed.

Lemma lastSync_unchanged_on_failure_witness :
  cfg_lastSync (snd (uploadToCloud (const_remote (Err (Error "connect ECONNREFUSED"))) "1.0.0"
                       (demo_world script_url (Ok demo_doc) tt)))
  = cfg_lastSync (demo_world script_url (Ok demo_doc) tt).
Proof.
  apply (lastSync_unchanged_on_failure (const_remote (Err (Error "connect ECONNREFUSED")))
           "1.0.0" _ _ (Error "connect ECONNREFUSED")).
  left. vm_compute. reflexivity.
Defined.

(** C1: a download first writes a local backup of the current data, with
    only local effects; whatever the download does afterwards only extends
    the trace; and when the download or import then fails, the handler
    returns [{status: "error", error, backupPath, backupPreserved: true}]
    with the path the backup step returned. *)
Theorem backup_before_download {S} (remote : jval -> S -> res jval * S) (w : world S) :
  exists backupPath w1,
    createLocalBackup w = (Ok backupPath, w1) /\
    local_only w w1 /\
    trace_grows w1 (snd (CLOUD_SYNC_DOWNLOAD remote w)) /\
    (forall e w2, downloadFromCloud remote w1 = (Err e, w2) ->
       CLOUD_SYNC_DOWNLOAD remote w =
       (Ok (JObj [("status", JStr "error"); ("error", JStr (ex_msg e));
                  ("backupPath", backupPath); ("backupPreserved", JBool true)]), w2)).
Proof.
  destruct (createLocalBackup_ok w) as [bp [w1 Hc]].
  exists bp, w1. split; [exact Hc|]. split.
  { pose proof (createLocalBackup_local w) as Hl. rewrite Hc in Hl. exact Hl. }
  unfold CLOUD_SYNC_DOWNLOAD.
  rewrite (catch_bind_ok _ _ _ w w1 bp Hc). cbv beta.
  split.
  - match goal with |- trace_grows _ (snd (?m w1)) =>
      assert (Hp : preserves trace_grows m) by frame_walk; exact (Hp w1) end.
  - intros e w2 Hd. apply catch_ok.
    rewrite (catch_bind_err _ _ _ w1 w2 e Hd). reflexivity.
Qed.

(** C9 (as the code has it): the three cloud-sync handlers always return
    normally with an object [{status: "ok", ...}] or
    [{status: "error", error: <message>, ...}]; the two legacy handlers
    always return normally with a bare string. *)
Theorem handlers_never_throw {S} (remote : jval -> S -> res jval * S)
        (APP_VERSION : string) (toLocaleString : jval -> string) (w : world S) :
  (exists v w', CLOUD_SYNC_GET_METADATA remote toLocaleString w = (Ok v, w')
                /\ normalized v = true) /\
  (exists v w', CLOUD_SYNC_UPLOAD remote APP_VERSION w = (Ok v, w') /\ normalized v = true) /\
  (exists v w', CLOUD_SYNC_DOWNLOAD remote w = (Ok v, w') /\ normalized v = true) /\
  (exists msg w', GOOGLE_DRIVE_UPLOAD remote APP_VERSION w = (Ok (JStr msg), w')) /\
  (exists msg w', GOOGLE_DRIVE_DOWNLOAD remote w = (Ok (JStr msg), w')).
Proof.
  split; [|split; [|split; [|split]]].
  - apply handler_total. returns_walk; reflexivity.
  - apply handler_total. returns_walk; reflexivity.
  - apply handler_total. returns_walk; reflexivity.
  - unfold GOOGLE_DRIVE_UPLOAD. apply legacy_total.
  - unfold GOOGLE_DRIVE_DOWNLOAD.
    destruct (catch_total (fun v => exists msg, v = JStr msg)
                (createLocalBackup ;;; downloadFromCloud remote ;;; ret (JStr "success"))
                (fun e => ret (JStr (ex_msg e))) w) as [v [w' [E [msg ->]]]].
    + returns_walk. eexists; reflexivity.
    + intros e. apply returns_ret. eexists; reflexivity.
    + intros e w0. reflexivity.
    + exists msg, w'. exact E.
Qed.

(** C9: the legacy upload handler reports an unreachable endpoint as the
    bare message string, not as [{status: "error", error}]. *)
Lemma legacy_upload_bare_string :
  fst (GOOGLE_DRIVE_UPLOAD (const_remote (Err (Error "connect ECONNREFUSED"))) "1.0.0"
         (demo_world script_url (Ok demo_doc) tt)) = Ok (JStr "connect ECONNREFUSED")
  /\ normalized (JStr "connect ECONNREFUSED") = false.
Proof. split; vm_compute; reflexivity. Qed.

(** C4 (as the code has it): [calculateHash] of an object is the SHA-256
    digest of its [JSON.stringify] text. For objects in which no key, at any
    depth, is an array index, that text lists the members in insertion
    order, and two different such objects always give two different texts:
    in particular the same members in a different order are hashed from
    different texts. *)
Theorem calculateHash_member_order (l1 l2 : list (string * jval)) :
  wfb (JObj l1) = true -> wfb (JObj l2) = true ->
  index_free (JObj l1) = true -> index_free (JObj l2) = true ->
  l1 <> l2 ->
  exists t1 t2,
    serl (JObj l1) = Some t1 /\
    serl (JObj l2) = Some t2 /\
    calculateHash (JObj l1) = Ok (sha256_hex t1) /\
    calculateHash (JObj l2) = Ok (sha256_hex t2) /\
    t1 <> t2.
Proof.
  intros H1 H2 _ _ Hne.
  destruct (serl_some _ H1) as [t1 E1]. destruct (serl_some _ H2) as [t2 E2].
  exists t1, t2. repeat split; try assumption.
  - unfold calculateHash. rewrite E1. reflexivity.
  - unfold calculateHash. rewrite E2. reflexivity.
  - intros ->.
    pose proof (JSON_parse_chars_serl _ _ H1 E1) as P1.
    pose proof (JSON_parse_chars_serl _ _ H2 E2) as P2.
    rewrite P1 in P2. injection P2 as Eq. exact (Hne Eq).
Qed.

Lemma calculateHash_member_order_witness :
  wfb (JObj [("a", JNum 1); ("b", JNum 2)]) = true /\
  wfb (JObj [("b", JNum 2); ("a", JNum 1)]) = true /\
  index_free (JObj [("a", JNum 1); ("b", JNum 2)]) = true /\
  index_free (JObj [("b", JNum 2); ("a", JNum 1)]) = true /\
  exists t1 t2,
    serl (JObj [("a", JNum 1); ("b", JNum 2)]) = Some t1 /\
    serl (JObj [("b", JNum 2); ("a", JNum 1)]) = Some t2 /\
    calculateHash (JObj [("a", JNum 1); ("b", JNum 2)]) = Ok (sha256_hex t1) /\
    calculateHash (JObj [("b", JNum 2); ("a", JNum 1)]) = Ok (sha256_hex t2) /\
    t1 <> t2.
Proof.
  split; [reflexivity|]. split; [reflexivity|]. split; [reflexivity|]. split; [reflexivity|].
  apply calculateHash_member_order; try reflexivity. discriminate.
Defined.

(** C4: two objects with the same members in a different insertion order get
    different hashes. *)
Lemma calculateHash_order_sensitive :
  calculateHash (JObj [("a", JNum 1); ("b", JNum 2)])
  = Ok "43258cff783fe7036d8a43033f830adfc60ec037382473548ac742b888292777" /\
  calculateHash (JObj [("b", JNum 2); ("a", JNum 1)])
  = Ok "3fb75453225c732a76b7899ea2096dda1455189c89817239732182f73fe5a09f".
Proof. split; vm_compute; reflexivity. Qed.

(** The timer of an enclosing request, still armed while its redirect chain
    runs, fires once the remaining time is used up, whatever the number of
    hops. *)
Lemma redirect_loop_pending_fires (net : network) (url : string) :
  String.eqb url EmptyString = false ->
  (forall u, url_valid net u = true) ->
  (forall m u b, exists sc loc body d,
      net_send net m u b = (HResp sc (Some loc) body, d) /\
      is_redirect sc (Some loc) = Some loc /\ 0 < d < REQUEST_TIMEOUT) ->
  forall fuel u p, 0 < p <= REQUEST_TIMEOUT -> p < Z.of_nat fuel ->
  makeRequest fuel net url JNull (Some u) (Some p) = Some (Err (Error "Request timeout"), p).
Proof.
  intros Hurl Hvalid Hsend fuel.
  induction fuel as [|fuel IH]; intros u p Hp Hf; [cbn in Hf; lia|].
  cbn [makeRequest]. rewrite Hurl. cbn [andb]. rewrite Hvalid. cbn [negb].
  match goal with |- context [net_send net ?m ?v ?b] =>
    destruct (Hsend m v b) as (sc & loc & body & d & Es & Er & Hd) end.
  rewrite Es. unfold outer_fires.
  destruct (Z.leb_spec p (Z.min d REQUEST_TIMEOUT)) as [Hle|Hlt]; [reflexivity|].
  assert (Hdp : d < p) by (unfold REQUEST_TIMEOUT in *; lia).
  destruct (Z.leb_spec REQUEST_TIMEOUT d) as [Hto|_]; [lia|].
  rewrite Er. cbn [option_map timer_min].
  assert (Hm : Z.min (p - d) (if net_keepalive net then REQUEST_TIMEOUT else p - d) = p - d)
    by (destruct (net_keepalive net); lia).
  replace (match (if net_keepalive net then Some REQUEST_TIMEOUT else None) with
           | Some y => Some (Z.min (p - d) y) | None => Some (p - d) end)
    with (Some (p - d)) by (destruct (net_keepalive net); [f_equal; lia|reflexivity]).
  rewrite IH.
  - f_equal. f_equal. lia.
  - lia.
  - lia.
Qed.

(** C5 (as the code has it): [makeRequest] counts no redirect hops and has
    no error for too many of them. When the configured URL is set, every URL
    is valid and every request is answered within the timeout (after at
    least 1 ms) by a 3xx response with a non-empty [Location], the loop is
    never cut by a hop limit: over connections that are not kept alive the
    call never settles, whatever the number of hops allowed to the model;
    over a kept-alive connection the first request's socket stays open with
    its 3xx response unread, and its 30-second idle timer rejects the call
    with [Request timeout], 30 s after that first response arrived. *)
Theorem makeRequest_redirects_unbounded (net : network) (url : string) (payload : jval) :
  String.eqb url EmptyString = false ->
  (forall u, url_valid net u = true) ->
  (forall m u b, exists sc loc body d,
      net_send net m u b = (HResp sc (Some loc) body, d) /\
      is_redirect sc (Some loc) = Some loc /\ 0 < d < REQUEST_TIMEOUT) ->
  (net_keepalive net = false ->
   forall fuel, makeRequest fuel net url payload None None = None) /\
  (net_keepalive net = true ->
   forall fuel, REQUEST_TIMEOUT + 1 < Z.of_nat fuel ->
   makeRequest fuel net url payload None None
   = Some (Err (Error "Request timeout"),
           snd (net_send net "POST" url (if truthy payload then JSON_stringify payload else None))
           + REQUEST_TIMEOUT)).
Proof.
  intros Hurl Hvalid Hsend. split.
  - intros Hka fuel. revert payload.
    enough (H : forall payload requestUrl,
               makeRequest fuel net url payload requestUrl None = None)
      by (intros payload; apply H).
    induction fuel as [|fuel IH]; intros payload requestUrl; [reflexivity|].
    cbn [makeRequest]. rewrite Hurl. cbn [andb]. rewrite Hvalid. cbn [negb].
    match goal with |- context [net_send net ?m ?v ?b] =>
      destruct (Hsend m v b) as (sc & loc & body & d & Es & Er & Hd) end.
    rewrite Es. cbn [outer_fires].
    destruct (Z.leb_spec REQUEST_TIMEOUT d) as [Hto|_]; [unfold REQUEST_TIMEOUT in *; lia|].
    rewrite Er, Hka. cbn [option_map timer_min]. rewrite IH. reflexivity.
  - intros Hka fuel Hf. destruct fuel as [|fuel]; [cbn in Hf; unfold REQUEST_TIMEOUT in Hf; lia|].
    cbn [makeRequest]. rewrite Hurl. cbn [andb]. rewrite Hvalid. cbn [negb].
    rewrite andb_true_r.
    destruct (Hsend "POST" url (if truthy payload then JSON_stringify payload else None))
      as (sc & loc & body & d & Es & Er & Hd).
    rewrite Es. cbn [outer_fires snd].
    destruct (Z.leb_spec REQUEST_TIMEOUT d) as [Hto|_]; [unfold REQUEST_TIMEOUT in *; lia|].
    rewrite Er, Hka. cbn [option_map timer_min].
    rewrite (redirect_loop_pending_fires net url Hurl Hvalid Hsend); [reflexivity| |].
    + unfold REQUEST_TIMEOUT. lia.
    + unfold REQUEST_TIMEOUT in *. lia.
Qed.

Lemma makeRequest_redirects_unbounded_witness :
  (net_keepalive loop_net = false ->
   forall fuel, makeRequest fuel loop_net script_url (JObj [("action", JStr "download")])
                            None None = None) /\
  (net_keepalive loop_net = true ->
   forall fuel, REQUEST_TIMEOUT + 1 < Z.of_nat fuel ->
   makeRequest fuel loop_net script_url (JObj [("action", JStr "download")]) None None
   = Some (Err (Error "Request timeout"), 30100)).
Proof.
  exact (makeRequest_redirects_unbounded loop_net script_url
           (JObj [("action", JStr "download")]) eq_refl (fun u => eq_refl)
           (fun m u b => ex_intro _ 302%Z (ex_intro _
              "https://script.googleusercontent.com/macros/echo"%string
              (ex_intro _ EmptyString (ex_intro _ 100%Z
                 (conj eq_refl (conj eq_refl (conj eq_refl eq_refl)))))))).
Defined.

(** C5: a chain of six redirects, more than a bound of five hops would
    allow, is followed to its end and resolves with the final JSON answer. *)
Lemma six_redirects_followed :
  makeRequest 7 (chain_net 6) script_url (JObj [("action", JStr "metadata")]) None None
  = Some (Ok (JObj []), 700).
Proof. vm_compute. reflexivity. Qed.

(** C6 (as the code has it): when the download response reports a
    [schemaVersion] greater than [SCHEMA_VERSION], [downloadFromCloud]
    throws right after the request: the import collaborator is not called,
    the trace ends with the request and [lastSync] is untouched. The error is
    the cloud's own error when the response has [status: "error"]; otherwise
    it is [No data payload in response] when the payload is falsy, and the
    incompatible-version error when it is truthy. *)
Theorem download_version_gate {S} (remote : jval -> S -> res jval * S) (w : world S)
        (resp : jval) (s' : S) :
  String.eqb (cfg_url w) EmptyString = false ->
  remote download_request (remote_state w) = (Ok resp, s') ->
  js_gt_num (jget resp "schemaVersion") SCHEMA_VERSION = true ->
  downloadFromCloud remote w
  = (Err (if js_strict_eq (jget resp "status") (JStr "error")
          then Error (error_message_of (jget resp "error"))
          else if truthy (jget resp "payload")
          then Error "Incompatible data format version. Please update the application."
          else Error "No data payload in response"),
     set_remote_state s' (emit (EvRequest download_request) w)).
Proof.
  intros Hurl Hrem Hgt.
  unfold downloadFromCloud.
  rewrite (bind_ok _ _ w (set_remote_state s' (emit (EvRequest download_request) w)) resp)
    by (unfold request; unfold download_request in Hrem; rewrite Hurl, Hrem; reflexivity).
  destruct resp as [| | b | n | str | l | l]; try (cbn in Hgt; discriminate).
  unfold jget in *. cbn [js_get] in *. cbv beta.
  rewrite bind_get_obj.
  destruct (js_strict_eq _ (JStr "error")) eqn:Est.
  - rewrite bind_get_obj. reflexivity.
  - rewrite bind_get_obj.
    destruct (truthy (match assoc_get "payload" l with Some x => x | None => JUndef end)) eqn:Ep;
      cbn [negb].
    + rewrite bind_get_obj.
      rewrite (gt_truthy _ Hgt), Hgt. cbn [andb]. reflexivity.
    + reflexivity.
Qed.

Lemma download_version_gate_witness :
  downloadFromCloud
    (const_remote (Ok (JObj [("status", JStr "ok"); ("schemaVersion", JNum 2);
                             ("payload", demo_doc)])))
    (demo_world script_url (Ok demo_doc) tt)
  = (Err (Error "Incompatible data format version. Please update the application."),
     set_remote_state tt (emit (EvRequest download_request)
                            (demo_world script_url (Ok demo_doc) tt))).
Proof.
  exact (download_version_gate
           (const_remote (Ok (JObj [("status", JStr "ok"); ("schemaVersion", JNum 2);
                                    ("payload", demo_doc)])))
           (demo_world script_url (Ok demo_doc) tt)
           (JObj [("status", JStr "ok"); ("schemaVersion", JNum 2); ("payload", demo_doc)]) tt
           eq_refl eq_refl eq_refl).
Defined.

(** C6: a response with a newer schema version but no payload fails with the
    missing-payload error, not with the incompatible-version one. *)
Lemma newer_schema_without_payload :
  fst (downloadFromCloud
         (const_remote (Ok (JObj [("status", JStr "ok"); ("schemaVersion", JNum 2)])))
         (demo_world script_url (Ok demo_doc) tt))
  = Err (Error "No data payload in response").
Proof. vm_compute. reflexivity. Qed.

(** C10 (as the code has it): when the response's [schemaVersion] is falsy
    (absent, [null] or [0]), the version check never rejects it. A response
    with [status: "error"] or a falsy payload fails right after the request,
    before any dispatch (no import in the trace). Otherwise the payload is
    dispatched on its fields: without a truthy [info] it is rejected with
    no import; with [info] and [hk4e] the UIGF 4.1 import is called on it
    right after the request; with [info] and [list] but no [hk4e] the
    UIGF 3.0 import; with neither it is rejected. *)
Theorem download_unversioned {S} (remote : jval -> S -> res jval * S) (w : world S)
      (resp : jval) (s' : S) :
  String.eqb (cfg_url w) EmptyString = false ->
  remote download_request (remote_state w) = (Ok resp, s') ->
  truthy (jget resp "schemaVersion") = false ->
  let P := jget resp "payload" in
  let w1 := set_remote_state s' (emit (EvRequest download_request) w) in
  (js_strict_eq (jget resp "status") (JStr "error") = true \/ truthy P = false ->
   exists e, downloadFromCloud remote w = (Err e, w1)) /\
  (js_strict_eq (jget resp "status") (JStr "error") = false -> truthy P = true ->
  (truthy (jget P "info") = false ->
   downloadFromCloud remote w = (Err (Error "Invalid data format: missing info field"), w1)) /\
  (truthy (jget P "info") = true -> truthy (jget P "hk4e") = true ->
   exists t, trace (snd (downloadFromCloud remote w))
             = trace w ++ [EvRequest download_request; EvImport41 P] ++ t) /\
  (truthy (jget P "info") = true -> truthy (jget P "hk4e") = false ->
   truthy (jget P "list") = true ->
   exists t, trace (snd (downloadFromCloud remote w))
             = trace w ++ [EvRequest download_request; EvImport30 P] ++ t) /\
  (truthy (jget P "info") = true -> truthy (jget P "hk4e") = false ->
   truthy (jget P "list") = false ->
   downloadFromCloud remote w = (Err (Error "Invalid data format"), w1))).
Proof.
  intros Hurl Hrem Hsv P w1.
  unfold downloadFromCloud.
  rewrite (bind_ok _ _ w w1 resp) by (unfold request; unfold download_request in Hrem; rewrite Hurl, Hrem; reflexivity).
  cbv beta. split.
  { intros Hcase. destruct resp as [| | b | n | str | l | l];
      try (eexists; reflexivity).
    unfold P, jget in Hcase. cbn [js_get] in Hcase.
    rewrite bind_get_obj.
    destruct (js_strict_eq _ (JStr "error")) eqn:Est.
    - rewrite bind_get_obj. eexists. reflexivity.
    - destruct Hcase as [Hcase|Hcase]; [discriminate|].
      rewrite bind_get_obj, Hcase. eexists. reflexivity. }
  intros Hst Hp.
  destruct resp as [| | b | n | str | l | l]; try (cbn in Hp; discriminate).
  unfold jget in Hsv, Hst; cbn [js_get] in Hsv, Hst.
  erewrite bind_get_ok by reflexivity. rewrite Hst.
  rewrite (bind_get_ok (JObj l) "payload" P _ _ eq_refl).
  rewrite Hp. cbn [negb].
  erewrite bind_get_ok by reflexivity. rewrite Hsv. cbn [andb].
  rewrite (bind_get_ok P "info" (jget P "info") _ _ (truthy_js_get _ _ Hp)).
  cbv beta.
  assert (Ht1 : trace w1 = trace w ++ [EvRequest download_request]) by reflexivity.
  split; [|split; [|split]]; intros Hi; rewrite Hi; cbn [andb].
  - reflexivity.
  - intros Hh. setoid_rewrite app_assoc. apply bind_trace_prefix.
    + exists []. rewrite (bind_get_ok P "hk4e" _ _ _ (truthy_js_get _ _ Hp)), Hh.
      rewrite import_with_trace_eq, app_nil_r, Ht1, <- app_assoc. reflexivity.
    + intros a. frame_walk.
  - intros Hh Hl. setoid_rewrite app_assoc. apply bind_trace_prefix.
    + exists []. rewrite (bind_get_ok P "hk4e" _ _ _ (truthy_js_get _ _ Hp)), Hh.
      rewrite (bind_get_ok P "list" _ _ _ (truthy_js_get _ _ Hp)), Hl.
      rewrite import_with_trace_eq, app_nil_r, Ht1, <- app_assoc. reflexivity.
    + intros a. frame_walk.
  - intros Hh Hl. apply bind_err.
    rewrite (bind_get_ok P "hk4e" _ _ _ (truthy_js_get _ _ Hp)), Hh.
    rewrite (bind_get_ok P "list" _ _ _ (truthy_js_get _ _ Hp)), Hl.
    reflexivity.
Qed.

Lemma download_unversioned_witness :
  let resp := JObj [("status", JStr "ok"); ("payload", demo_doc)] in
  exists t, trace (snd (downloadFromCloud (const_remote (Ok resp))
                          (demo_world script_url (Ok demo_doc) tt)))
            = trace (demo_world script_url (Ok demo_doc) tt)
              ++ [EvRequest download_request; EvImport41 (jget resp "payload")] ++ t.
Proof.
  cbv zeta.
  refine (proj1 (proj2 (proj2 (download_unversioned
                          (const_remote (Ok (JObj [("status", JStr "ok"); ("payload", demo_doc)])))
                          (demo_world script_url (Ok demo_doc) tt)
                          (JObj [("status", JStr "ok"); ("payload", demo_doc)]) tt
                          eq_refl eq_refl eq_refl) eq_refl eq_refl)) eq_refl eq_refl).
Defined.

(** C10: responses without [schemaVersion] that never reach the import
    dispatch: the endpoint's answer for an empty Drive folder, and an [ok]
    response without payload. *)
Lemma unversioned_response_not_dispatched :
  fst (downloadFromCloud AppsScript.remote (demo_world script_url (Ok demo_doc) empty_drive))
  = Err (Error "No data file found in cloud storage")
  /\ trace (snd (downloadFromCloud AppsScript.remote
                   (demo_world script_url (Ok demo_doc) empty_drive)))
     = [EvRequest download_request]
  /\ fst (downloadFromCloud (const_remote (Ok (JObj [("status", JStr "ok")])))
            (demo_world script_url (Ok demo_doc) tt))
     = Err (Error "No data payload in response").
Proof. split; [|split]; vm_compute; reflexivity. Qed.

(** C3 (as the code has it): the two sides are gathered without aborting.
    A failure fetching the cloud side degrades it to
    [{exists: false, error}]; the local side is either the
    [{exists: true, ...}] summary or, when generating the document fails,
    [{exists: false, localTimestamp: null, localHash: null, recordCount: 0,
    data: null}] with no error. The handler answers [status: "ok"], and
    [hasConflict] is [true] exactly when both [exists] values are truthy and
    [cloudHash !== localHash]; when either side does not exist it is falsy
    (that side's [exists] value). *)
Theorem metadata_comparison {S} (remote : jval -> S -> res jval * S)
        (toLocaleString : jval -> string) (w : world S) :
  exists cm lm w1,
    gather_metadata remote w = (Ok (cm, lm), w1) /\
    (forall e w', getCloudMetadata remote w = (Err e, w') ->
        cm = JObj [("exists", JBool false); ("error", JStr (ex_msg e))]) /\
    (lm = local_fallback \/ exists rest, lm = JObj (("exists", JBool true) :: rest)) /\
    exists cloud local hc,
      CLOUD_SYNC_GET_METADATA remote toLocaleString w
        = (Ok (JObj [("status", JStr "ok"); ("cloud", cloud); ("local", local);
                     ("hasConflict", hc)]), w1) /\
      (hc = JBool true <-> truthy (jget cm "exists") = true /\ truthy (jget lm "exists") = true /\
                           js_strict_eq (jget cm "cloudHash") (jget lm "localHash") = false) /\
      (truthy (jget cm "exists") = false \/ truthy (jget lm "exists") = false ->
       truthy hc = false).
Proof.
  destruct (catch_total readable (getCloudMetadata remote) degrade w
              (getCloudMetadata_readable remote) degrade_readable (fun e w0 => eq_refl))
    as [cm [w0 [Ec Rc]]].
  destruct (getLocalMetadata_total w0) as [lm [w1 [El Hl]]].
  assert (Eg : gather_metadata remote w = (Ok (cm, lm), w1)).
  { unfold gather_metadata. rewrite (bind_ok _ _ w w0 cm Ec).
    rewrite (bind_ok _ _ w0 w1 lm (catch_ok _ _ w0 w1 lm El)). reflexivity. }
  assert (Rl : readable lm) by (destruct Hl as [->|[rest ->]]; intros k; reflexivity).
  exists cm, lm, w1. split; [exact Eg|]. split.
  { intros e w' Ef. unfold catch in Ec. rewrite Ef in Ec. unfold degrade, ret in Ec.
injection Ec as <-. reflexivity. }
  split; [exact Hl|].
  destruct (side_summary_ok toLocaleString cm "cloudTimestamp" "cloudHash" Rc) as [cloud Es1].
  destruct (side_summary_ok toLocaleString lm "localTimestamp" "localHash" Rl) as [local Es2].
  destruct (conflict_of_spec cm lm Rc Rl) as [hc [Eh [Hiff Hfalse]]].
  exists cloud, local, hc. split; [|split; assumption].
  unfold CLOUD_SYNC_GET_METADATA. apply catch_ok.
  rewrite (bind_ok _ _ w w1 (cm, lm) Eg). cbv beta iota.
  rewrite Es1, bind_lift_ok, Es2, bind_lift_ok, Eh, bind_lift_ok. reflexivity.
Qed.

(** C3: a local failure does not degrade to [{exists: false, error}]: the
    local side carries no error message. *)
Lemma local_failure_without_error :
  fst (gather_metadata AppsScript.remote
         (demo_world script_url (Err (Error "generation failed")) empty_drive))
  = Ok (JObj [("status", JStr "ok"); ("exists", JBool false); ("cloudTimestamp", JNull);
              ("cloudHash", JNull); ("recordCount", JNum 0)],
        JObj [("exists", JBool false); ("localTimestamp", JNull); ("localHash", JNull);
              ("recordCount", JNum 0); ("data", JNull)])
  /\ jget local_fallback "error" = JUndef.
Proof. split; vm_compute; reflexivity. Qed.

(** C2 (as the code has it): let [D] be an object [JSON.parse] could have
    produced. If [countRecords] can count its records, posting the upload
    request to the endpoint succeeds, and a download posted afterwards
    answers [status: "ok"] with a payload that, with the four provenance
    fields removed, is [D] with its own provenance fields removed; so the
    two have the same [calculateHash]. If [countRecords] throws on [D],
    [uploadData] has already written [D] (with the provenance fields) to the
    data file when it throws: the upload answers [status: "error"] with the
    exception's text, and a download then gives exactly the same answer and
    leaves the state as it is, so every later download answers with the
    same error. *)
Theorem upload_download_roundtrip (l : list (string * jval)) (av cid dh : string) (ts : Z)
        (s : AppsScript.gs_state) :
  wfb (JObj l) = true ->
  match countRecords (JObj l) with
  | Ok _ =>
      exists up s1 down s2,
        AppsScript.remote (upload_request av cid dh ts (JObj l)) s = (Ok up, s1) /\
        jget up "status" = JStr "ok" /\
        AppsScript.remote download_request s1 = (Ok down, s2) /\
        jget down "status" = JStr "ok" /\
        strip_provenance (jget down "payload") = strip_provenance (JObj l) /\
        calculateHash (strip_provenance (jget down "payload"))
        = calculateHash (strip_provenance (JObj l))
  | Err e =>
      exists s1 f P,
        AppsScript.remote (upload_request av cid dh ts (JObj l)) s
        = (Ok (JObj [("status", JStr "error"); ("error", JStr (exn_to_string e))]), s1) /\
        AppsScript.data_file s1 = Some f /\
        JSON_parse (AppsScript.f_content f) = Ok P /\
        strip_provenance P = strip_provenance (JObj l) /\
        AppsScript.remote download_request s1
        = (Ok (JObj [("status", JStr "error"); ("error", JStr (exn_to_string e))]), s1)
  end.
Proof.
  intros Hw.
  assert (Hwr : wfb (upload_request av cid dh ts (JObj l)) = true).
  { unfold upload_request. remember (JObj l) as D eqn:ED. simpl. rewrite Hw. reflexivity. }
  destruct (stringify_some _ Hwr) as [b Hb].
  set (l4 := assoc_set "_appVersion" (js_or (JStr av) (JStr "unknown"))
               (assoc_set "_clientId" (js_or (JStr cid) (JStr "unknown"))
                  (assoc_set "_uploadTimestamp" (JNum (AppsScript.gs_now s))
                     (assoc_set "_schemaVersion" (JNum AppsScript.CURRENT_SCHEMA_VERSION) l)))).
  assert (Hw4 : wfb (JObj l4) = true).
  { unfold l4. repeat apply wfb_set; try apply wfb_js_or_str; try reflexivity. exact Hw. }
  destruct (stringify_some _ Hw4) as [content Hcontent].
  assert (Hcount : countRecords (JObj l4) = countRecords (JObj l)).
  { unfold l4. rewrite !countRecords_set by reflexivity. reflexivity. }
  assert (Hsv : assoc_get "_schemaVersion" l4 = Some (JNum AppsScript.CURRENT_SCHEMA_VERSION)).
  { unfold l4. rewrite !assoc_get_set_other by reflexivity. apply assoc_get_set_same. }
  assert (Hstrip : strip_provenance (JObj l4) = strip_provenance (JObj l)).
  { unfold l4, strip_provenance. rewrite !strip_set by reflexivity. reflexivity. }
  assert (Hwd : wfb download_request = true) by reflexivity.
  destruct (stringify_some _ Hwd) as [bd Hbd].
  destruct (countRecords (JObj l)) as [rc|e] eqn:Erc.
  - assert (Hup : exists up s1,
               AppsScript.remote (upload_request av cid dh ts (JObj l)) s = (Ok up, s1) /\
               jget up "status" = JStr "ok" /\
               exists f, AppsScript.data_file s1 = Some f /\ AppsScript.f_content f = content).
    { clear Hstrip Hsv.
      unfold AppsScript.remote, AppsScript.doPost.
      rewrite Hb, (JSON_parse_stringify _ _ Hwr Hb).
      unfold AppsScript.dispatch, AppsScript.uploadData.
      with_strategy opaque [JSON_stringify countRecords gs_calculateHash assoc_set] cbn.
      fold l4. rewrite Hcontent, Hcount. cbv beta iota.
      match goal with |- context [AppsScript.jsonResponse ?d] =>
        rewrite (reply_parse d) by reflexivity end.
      do 2 eexists. split; [reflexivity|]. split; [reflexivity|].
      destruct (AppsScript.data_file s); eexists; split; reflexivity. }
    assert (Hdown : forall s1 f, AppsScript.data_file s1 = Some f ->
              AppsScript.f_content f = content ->
              exists down s2, AppsScript.remote download_request s1 = (Ok down, s2) /\
                jget down "status" = JStr "ok" /\ jget down "payload" = JObj l4).
    { intros s1 f Hf Hfc. clear Hstrip Hup.
      unfold AppsScript.remote, AppsScript.doPost.
      rewrite Hbd, (JSON_parse_stringify _ _ Hwd Hbd).
      unfold AppsScript.dispatch, AppsScript.downloadData.
      with_strategy opaque [JSON_stringify JSON_parse countRecords gs_calculateHash assoc_set] cbn.
      rewrite Hf, Hfc. cbv beta iota.
      rewrite (JSON_parse_stringify _ _ Hw4 Hcontent). cbn [AppsScript.rbind].
      rewrite Hcount. cbn [AppsScript.rbind js_get]. rewrite Hsv.
      cbn [AppsScript.rbind js_or truthy].
      clearbody l4. remember (JObj l4) as P eqn:EP.
      assert (HwP : wfb P = true) by (subst P; exact Hw4).
      match goal with |- context [AppsScript.jsonResponse ?d] =>
        rewrite (reply_parse d) by (simpl; rewrite HwP; reflexivity) end.
      do 2 eexists. split; [reflexivity|]. split; reflexivity. }
    destruct Hup as (up & s1 & Eup & Sup & f & Hf & Hfc).
    destruct (Hdown s1 f Hf Hfc) as (down & s2 & Edown & Sdown & Pdown).
    exists up, s1, down, s2. rewrite Pdown, Hstrip.
    repeat split; assumption.
  - assert (Hup : exists s1,
               AppsScript.remote (upload_request av cid dh ts (JObj l)) s
               = (Ok (JObj [("status", JStr "error"); ("error", JStr (exn_to_string e))]), s1) /\
               exists f, AppsScript.data_file s1 = Some f /\ AppsScript.f_content f = content).
    { clear Hstrip Hsv.
      unfold AppsScript.remote, AppsScript.doPost.
      rewrite Hb, (JSON_parse_stringify _ _ Hwr Hb).
      unfold AppsScript.dispatch, AppsScript.uploadData.
      with_strategy opaque [JSON_stringify countRecords gs_calculateHash assoc_set] cbn.
      fold l4. rewrite Hcontent, Hcount. cbv beta iota.
      match goal with |- context [AppsScript.jsonResponse ?d] =>
        rewrite (reply_parse d) by reflexivity end.
      eexists. split; [reflexivity|].
      destruct (AppsScript.data_file s); eexists; split; reflexivity. }
    destruct Hup as (s1 & Eup & f & Hf & Hfc).
    exists s1, f, (JObj l4). split; [exact Eup|]. split; [exact Hf|].
    split; [rewrite Hfc; exact (JSON_parse_stringify _ _ Hw4 Hcontent)|].
    split; [exact Hstrip|].
    clear Hstrip Eup.
    unfold AppsScript.remote, AppsScript.doPost.
    rewrite Hbd, (JSON_parse_stringify _ _ Hwd Hbd).
    unfold AppsScript.dispatch, AppsScript.downloadData.
    with_strategy opaque [JSON_stringify JSON_parse countRecords gs_calculateHash assoc_set] cbn.
    rewrite Hf, Hfc. cbv beta iota.
    rewrite (JSON_parse_stringify _ _ Hw4 Hcontent). cbn [AppsScript.rbind].
    rewrite Hcount. cbn [AppsScript.rbind].
    match goal with |- context [AppsScript.jsonResponse ?d] =>
      rewrite (reply_parse d) by reflexivity end.
    reflexivity.
Qed.

Lemma upload_download_roundtrip_witness :
  (exists up s1 down s2,
    AppsScript.remote (upload_request "1.0.0" "client-1" "h" 1700000000000
                         (JObj [("info", JObj [("uid", JStr "1")]);
                                ("list", JArr [JObj [("id", JStr "1")]])])) empty_drive
    = (Ok up, s1) /\
    jget up "status" = JStr "ok" /\
    AppsScript.remote download_request s1 = (Ok down, s2) /\
    jget down "status" = JStr "ok" /\
    strip_provenance (jget down "payload")
    = strip_provenance (JObj [("info", JObj [("uid", JStr "1")]);
                              ("list", JArr [JObj [("id", JStr "1")]])]) /\
    calculateHash (strip_provenance (jget down "payload"))
    = calculateHash (strip_provenance (JObj [("info", JObj [("uid", JStr "1")]);
                                             ("list", JArr [JObj [("id", JStr "1")]])])))
  /\
  (exists s1 f P,
    AppsScript.remote (upload_request "1.0.0" "client-1" "h" 0 (JObj [("hk4e", JArr [JNull])]))
                      empty_drive
    = (Ok (JObj [("status", JStr "error");
                 ("error", JStr "TypeError: Cannot read properties of null or undefined (reading 'list')")]), s1) /\
    AppsScript.data_file s1 = Some f /\
    JSON_parse (AppsScript.f_content f) = Ok P /\
    strip_provenance P = strip_provenance (JObj [("hk4e", JArr [JNull])]) /\
    AppsScript.remote download_request s1
    = (Ok (JObj [("status", JStr "error");
                 ("error", JStr "TypeError: Cannot read properties of null or undefined (reading 'list')")]), s1)).
Proof.
  split.
  - exact (upload_download_roundtrip [("info", JObj [("uid", JStr "1")]);
                                      ("list", JArr [JObj [("id", JStr "1")]])]
             "1.0.0" "client-1" "h" 1700000000000 empty_drive eq_refl).
  - exact (upload_download_roundtrip [("hk4e", JArr [JNull])]
             "1.0.0" "client-1" "h" 0 empty_drive eq_refl).
Defined.

(** C2: a document whose [hk4e] list holds [null] is written to Drive, but
    the upload answers with an error and so does every later download: no
    payload comes back. *)
Lemma upload_written_but_not_downloadable :
  let up := AppsScript.remote (upload_request "1.0.0" "client-1" "h" 0
                                 (JObj [("hk4e", JArr [JNull])])) empty_drive in
  fst up = Ok (JObj [("status", JStr "error");
                     ("error", JStr "TypeError: Cannot read properties of null or undefined (reading 'list')")])
  /\ option_map AppsScript.f_id (AppsScript.data_file (snd up)) = Some "file-1"
  /\ fst (AppsScript.remote download_request (snd up))
     = Ok (JObj [("status", JStr "error");
                 ("error", JStr "TypeError: Cannot read properties of null or undefined (reading 'list')")]).
Proof. cbv zeta. split; [|split]; vm_compute; reflexivity. Qed.
Section Claim7.
Context {S : Type}.

(** C7: [createLocalBackup] run after each of more than ten clock readings,
    with distinct stamps of one length (as [toISOString] gives them) and
    every backup succeeding, from a directory holding no [backup_*] entry,
    leaves exactly ten [backup_*] files: the names of the ten greatest
    stamps, which listed by [.sort().reverse()] come in descending order. *)
Theorem backup_rotation (isos : list string) (w : world S) :
  (10 < length isos)%nat ->
  (exists d, fst (generate w) = Ok d) ->
  filter (starts_with "backup_") (backup_dir w) = [] ->
  NoDup (map replace_colon_dot isos) ->
  same_length (map replace_colon_dot isos) = true ->
  length (filter (starts_with "backup_") (backup_dir (run_backups isos w))) = 10%nat /\
  List.rev (sort_strings (filter (starts_with "backup_") (backup_dir (run_backups isos w))))
  = map backup_name (firstn 10 (List.rev (sort_strings (map replace_colon_dot isos)))).
Proof.
  intros Hn Hg H0 Hd Hs.
  assert (Hnames : map (fun t => backup_name (replace_colon_dot t)) isos
                   = map backup_name (map replace_colon_dot isos)) by (rewrite map_map; reflexivity).
  assert (HdN : NoDup (map backup_name (map replace_colon_dot isos)))
    by (apply NoDup_map_inj; [exact backup_name_inj|exact Hd]).
  destruct (run_backups_inv isos [] w Hg) as [Hk Hin].
  - simpl. rewrite Hnames. exact HdN.
  - fold is_backup in H0. rewrite H0. constructor.
  - fold is_backup in H0. rewrite H0. intros y; simpl; tauto.
  - rewrite List.app_nil_l in Hin. rewrite Hnames, (desc_map_backup_name _ Hd Hs), firstn_map in Hin.
    fold is_backup. set (K := filter is_backup (backup_dir (run_backups isos w))) in *.
    assert (HK : desc K = map backup_name (firstn 10 (desc (map replace_colon_dot isos)))).
    { apply sorted_unique.
      - apply desc_sorted, Hk.
      - rewrite <- firstn_map, <- (desc_map_backup_name _ Hd Hs).
        apply StronglySorted_firstn, desc_sorted, HdN.
      - intros y. rewrite desc_in. apply Hin. }
    split; [|exact HK].
    rewrite <- desc_length, HK, length_map, length_firstn, desc_length, length_map. lia.
Qed.
End Claim7.

Lemma backup_rotation_witness :
  length (filter (starts_with "backup_")
            (backup_dir (run_backups demo_isos
               (set_backup_dir ["settings.json"] (demo_world script_url (Ok demo_doc) tt))))) = 10%nat /\
  List.rev (sort_strings (filter (starts_with "backup_")
            (backup_dir (run_backups demo_isos
               (set_backup_dir ["settings.json"] (demo_world script_url (Ok demo_doc) tt))))))
  = map backup_name (firstn 10 (List.rev (sort_strings (map replace_colon_dot demo_isos)))).
Proof.
  apply backup_rotation.
  - simpl. lia.
  - eexists. reflexivity.
  - reflexivity.
  - vm_compute. repeat constructor; simpl; intuition discriminate.
  - vm_compute. reflexivity.
Defined.


(* ================================================================== *)
(** * Further properties of the code *)

(** ** The client module *)

Lemma filter_none {A} (f : A -> bool) (l : list A) :
  (forall z, In z l -> f z = false) -> filter f l = [].
Proof.
  induction l as [|a t IH]; intros H; simpl; [reflexivity|].
  rewrite (H a (or_introl eq_refl)). apply IH. intros z Hz. apply H. right; exact Hz.
Qed.

Lemma ins_desc_late x d n :
  StronglySorted str_gt d -> ~ In x d ->
  (n <= length (filter (str_ltb x) d))%nat -> In x (skipn n (ins_desc x d)).
Proof.
  revert n. induction d as [|y t IH]; intros n Hs Hn Hle.
  - simpl in Hle. assert (n = 0%nat) by lia. subst. left; reflexivity.
  - apply StronglySorted_inv in Hs as [Ht Hf]. simpl. simpl in Hle.
    assert (Hxy : x <> y) by (intros ->; apply Hn; left; reflexivity).
    destruct (str_ltb y x) eqn:Eyx.
    + rewrite (str_ltb_asym _ _ Eyx) in Hle.
      rewrite filter_none in Hle.
      * simpl in Hle. assert (n = 0%nat) by lia. subst. left; reflexivity.
      * intros z Hz. apply str_ltb_asym. apply (str_ltb_trans z y x); [|exact Eyx].
        exact (proj1 (Forall_forall _ _) Hf z Hz).
    + destruct (str_ltb_total x y Hxy) as [Exy|Eyx']; [|congruence].
      rewrite Exy in Hle. simpl in Hle.
      destruct n as [|n]; simpl.
      * right. apply ins_desc_in. left; reflexivity.
      * apply IH; [exact Ht| |lia]. intros H; apply Hn; right; exact H.
Qed.

Lemma Permutation_filter_of {A} (f : A -> bool) (l l' : list A) :
  Permutation l l' -> Permutation (filter f l) (filter f l').
Proof.
  induction 1; simpl.
  - constructor.
  - destruct (f x); [constructor|]; assumption.
  - destruct (f x), (f y); try constructor; reflexivity.
  - eapply Permutation_trans; eassumption.
Qed.

Lemma desc_perm l : Permutation (desc l) l.
Proof.
  unfold desc. eapply Permutation_trans; [apply Permutation_sym, Permutation_rev|].
  apply sort_strings_perm.
Qed.

(** When the clock has gone back, so that ten backups in the directory have
    names after the new one, [createLocalBackup] returns the path of the file
    it has just written, and its rotation has already deleted that file. *)
Theorem createLocalBackup_clock_back {S} (w : world S) (d : jval) :
  let x := backup_name (replace_colon_dot (iso_now w)) in
  fst (generate w) = Ok d ->
  NoDup (filter is_backup (backup_dir w)) -> ~ In x (backup_dir w) ->
  (10 <= length (filter (str_ltb x) (filter is_backup (backup_dir w))))%nat ->
  fst (createLocalBackup w)
  = Ok (JStr (path_join (path_join (userDataPath w) "cloud-sync-backups") x)) /\
  ~ In x (backup_dir (snd (createLocalBackup w))).
Proof.
  intros x Hg HB Hx Hcount.
  set (B := filter is_backup (backup_dir w)) in *.
  assert (HxB : ~ In x B) by (intros H; apply filter_In in H; tauto).
  assert (Hxd : existsb (String.eqb x) (backup_dir w) = false).
  { apply Bool.not_true_iff_false. intros H. apply existsb_exists in H as [f [Hf Hef]].
    apply String.eqb_eq in Hef. subst f. contradiction. }
  split.
  - unfold createLocalBackup, catch, bind, gets.
    assert (E : generate w = (Ok d, w)) by (rewrite <- Hg; reflexivity).
    rewrite E. unfold write_entry, modify. rewrite remove_all_ok. reflexivity.
  - rewrite (createLocalBackup_written w d Hg). cbv zeta. fold x. rewrite Hxd.
    rewrite remove_all_dir. cbn [backup_dir emit set_backup_dir].
    intros Hin. apply filter_In in Hin as [_ Hin].
    apply forallb_neq_iff in Hin. apply Hin.
    unfold prune_list. fold is_backup. fold (desc (filter is_backup (backup_dir w ++ [x]))).
    assert (Hbx : is_backup x = true) by apply backup_name_is_backup.
    rewrite filter_app. cbn [filter]. rewrite Hbx. fold B.
    rewrite (desc_snoc B x HB HxB).
    apply ins_desc_late; [apply desc_sorted, HB|rewrite desc_in; exact HxB|].
    rewrite (Permutation_length (Permutation_filter_of _ _ _ (desc_perm B))). exact Hcount.
Qed.

Lemma createLocalBackup_clock_back_witness :
  fst (createLocalBackup clock_back_world)
  = Ok (JStr "/data/cloud-sync-backups/backup_2024-01-01T00-00-00-000Z.json") /\
  ~ In "backup_2024-01-01T00-00-00-000Z.json" (backup_dir (snd (createLocalBackup clock_back_world))).
Proof.
  apply (createLocalBackup_clock_back clock_back_world demo_doc).
  - reflexivity.
  - vm_compute. repeat constructor; simpl; intuition discriminate.
  - vm_compute. intuition discriminate.
  - vm_compute. lia.
Defined.

Ltac split_matches :=
  repeat (cbn beta iota zeta delta [fst snd] in *;
    match goal with
    | |- context [match ?x with _ => _ end] =>
        lazymatch x with
        | context [match _ with _ => _ end] => fail
        | _ => let E := fresh "E" in destruct x eqn:E
        end
    end).

(** A successful [uploadToCloud] sets [googleDriveLastSync] to the clock reading. *)
Theorem uploadToCloud_stamps_lastSync {S} (remote : jval -> S -> res jval * S)
        (APP_VERSION : string) (w : world S) (r : jval) :
  fst (uploadToCloud remote APP_VERSION w) = Ok r ->
  cfg_lastSync (snd (uploadToCloud remote APP_VERSION w)) = JNum (now_ms w).
Proof.
  unfold uploadToCloud, bind, generate, getClientId, gets, save_config, get, lift,
    request, modify, ret, throw.
  split_matches; try discriminate; try reflexivity.
Qed.

(** A successful [downloadFromCloud] sets [googleDriveLastSync] to the clock reading. *)
Theorem downloadFromCloud_stamps_lastSync {S} (remote : jval -> S -> res jval * S)
        (w : world S) (r : jval) :
  fst (downloadFromCloud remote w) = Ok r ->
  cfg_lastSync (snd (downloadFromCloud remote w)) = JNum (now_ms w).
Proof.
  unfold downloadFromCloud, bind, gets, save_config, get, lift,
    request, modify, ret, throw, import_with.
  split_matches; try discriminate; try reflexivity.
Qed.

Lemma uploadToCloud_stamps_lastSync_witness :
  fst (uploadToCloud ok_remote "1.0.0" (demo_world script_url (Ok demo_doc) tt))
  = Ok (JObj [("status", JStr "ok"); ("payload", demo_doc)]) /\
  cfg_lastSync (snd (uploadToCloud ok_remote "1.0.0" (demo_world script_url (Ok demo_doc) tt)))
  = JNum 1700000000000.
Proof.
  assert (H : fst (uploadToCloud ok_remote "1.0.0" (demo_world script_url (Ok demo_doc) tt))
              = Ok (JObj [("status", JStr "ok"); ("payload", demo_doc)])) by (vm_compute; reflexivity).
  split; [exact H|].
  exact (uploadToCloud_stamps_lastSync ok_remote "1.0.0" _ _ H).
Defined.

Lemma downloadFromCloud_stamps_lastSync_witness :
  fst (downloadFromCloud ok_remote (demo_world script_url (Ok demo_doc) tt))
  = Ok (JObj [("status", JStr "ok"); ("payload", demo_doc)]) /\
  cfg_lastSync (snd (downloadFromCloud ok_remote (demo_world script_url (Ok demo_doc) tt)))
  = JNum 1700000000000.
Proof.
  assert (H : fst (downloadFromCloud ok_remote (demo_world script_url (Ok demo_doc) tt))
              = Ok (JObj [("status", JStr "ok"); ("payload", demo_doc)])) by (vm_compute; reflexivity).
  split; [exact H|].
  exact (downloadFromCloud_stamps_lastSync ok_remote _ _ H).
Defined.

(** [getClientId] saves the id it hands out (when the UUID is not empty): a
    second call returns the same id and changes nothing. *)
Theorem getClientId_persistent {S} (w : world S) :
  uuid w <> EmptyString ->
  exists id, fst (getClientId w) = Ok id /\
    cfg_clientId (snd (getClientId w)) = id /\
    getClientId (snd (getClientId w)) = (Ok id, snd (getClientId w)).
Proof.
  intros Hu. apply String.eqb_neq in Hu. unfold getClientId.
  destruct (String.eqb (cfg_clientId w) EmptyString) eqn:E;
    cbn [fst snd cfg_clientId emit set_clientId]; [rewrite Hu|rewrite E];
    eexists; repeat split.
Qed.

Lemma getClientId_persistent_witness :
  exists id, fst (getClientId (set_clientId "" (demo_world script_url (Ok demo_doc) tt))) = Ok id /\
    cfg_clientId (snd (getClientId (set_clientId "" (demo_world script_url (Ok demo_doc) tt)))) = id /\
    getClientId (snd (getClientId (set_clientId "" (demo_world script_url (Ok demo_doc) tt))))
    = (Ok id, snd (getClientId (set_clientId "" (demo_world script_url (Ok demo_doc) tt)))).
Proof. apply getClientId_persistent. vm_compute. discriminate. Defined.

(** When generating the document throws, [createLocalBackup] returns [null]
    and leaves the world as it was: no file is written, none is removed. *)
Theorem createLocalBackup_generation_fails {S} (w : world S) (e : exn) :
  fst (generate w) = Err e -> createLocalBackup w = (Ok JNull, w).
Proof.
  intros Hg. unfold createLocalBackup, catch, bind, gets.
  assert (E : generate w = (Err e, w)) by (rewrite <- Hg; reflexivity).
  rewrite E. reflexivity.
Qed.

Lemma createLocalBackup_generation_fails_witness :
  createLocalBackup (demo_world script_url (Err (Error "no data")) tt)
  = (Ok JNull, demo_world script_url (Err (Error "no data")) tt).
Proof. apply (createLocalBackup_generation_fails _ (Error "no data")). reflexivity. Defined.

(** For a generated object, the [localHash] that [getLocalMetadata] reports is
    the [dataHash] that [uploadToCloud] sends with the same document. *)
Theorem local_hash_is_upload_hash {S} (remote : jval -> S -> res jval * S)
        (APP_VERSION : string) (w : world S) (l : list (string * jval)) (h : string) :
  fst (generate w) = Ok (JObj l) -> calculateHash (JObj l) = Ok h ->
  is_ok (countRecords (JObj l)) = true -> cfg_url w <> EmptyString ->
  (exists m, fst (getLocalMetadata w) = Ok m /\ jget m "localHash" = JStr h) /\
  In (EvRequest (upload_payload APP_VERSION w h (JObj l)))
     (trace (snd (uploadToCloud remote APP_VERSION w))).
Proof.
  intros Hg Hh Hc Hu.
  assert (E : generate w = (Ok (JObj l), w)) by (rewrite <- Hg; reflexivity).
  split.
  - unfold getLocalMetadata, catch, bind. rewrite E. cbn [gets].
    assert (Hh' : calculateHash (match JSON_stringify (JObj l) with
                                 | Some s => JStr s | None => JUndef end) = Ok h).
    { revert Hh. unfold calculateHash, JSON_stringify.
      destruct (serl (JObj l)) as [t|]; [|discriminate]. cbn.
      rewrite list_ascii_of_string_of_list_ascii. exact (fun H => H). }
    unfold lift at 1. rewrite Hh'.
    destruct (countRecords (JObj l)) as [rc|e]; [|discriminate].
    eexists. split; reflexivity.
  - apply String.eqb_neq in Hu. unfold upload_payload, upload_request.
    unfold uploadToCloud, bind at 1. rewrite E.
    unfold bind, getClientId, gets, save_config, get, lift,
      request, modify, ret, throw. rewrite Hh.
    split_matches; try discriminate;
      cbn [cfg_url emit set_clientId] in *; try congruence; cbn;
      repeat (rewrite in_app_iff; cbn); auto 10.
Qed.

Lemma local_hash_is_upload_hash_witness :
  (exists m, fst (getLocalMetadata (demo_world script_url (Ok demo_doc) tt)) = Ok m /\
             jget m "localHash" = JStr demo_hash) /\
  In (EvRequest (upload_payload "1.0.0" (demo_world script_url (Ok demo_doc) tt) demo_hash demo_doc))
     (trace (snd (uploadToCloud ok_remote "1.0.0" (demo_world script_url (Ok demo_doc) tt)))).
Proof.
  apply local_hash_is_upload_hash.
  - reflexivity.
  - vm_compute. reflexivity.
  - reflexivity.
  - vm_compute. discriminate.
Defined.

Lemma count_accounts_sum (accs : list jval) (c : Z) :
  Forall (fun a => a <> JUndef /\ a <> JNull) accs ->
  count_accounts accs c = Ok (c + fold_right (fun a n => record_count (jget a "list") + n) 0 accs).
Proof.
  revert c. induction accs as [|a t IH]; intros c Hf; simpl; [f_equal; lia|].
  apply Forall_cons_iff in Hf as [[Hu Hn] Ht].
  assert (Ha : js_get a "list" = Ok (jget a "list")) by (destruct a; try congruence; reflexivity).
  rewrite Ha. rewrite IH by exact Ht. f_equal.
  destruct (jget a "list"); cbn; rewrite ?andb_false_r; lia.
Qed.

(** For a UIGF 4 document ([hk4e] an array of accounts, none null or
    undefined), [countRecords] is the sum of the lengths of the accounts'
    [list] arrays; the top-level [list] is not counted, so an empty [hk4e]
    gives 0. *)
Theorem countRecords_uigf4 (d : list (string * jval)) (accs : list jval) :
  jget (JObj d) "hk4e" = JArr accs ->
  Forall (fun a => a <> JUndef /\ a <> JNull) accs ->
  countRecords (JObj d) = Ok (fold_right (fun a n => record_count (jget a "list") + n) 0 accs).
Proof.
  intros Hh Hf. unfold countRecords. cbn [truthy negb].
  change (js_get (JObj d) "hk4e") with (Ok (jget (JObj d) "hk4e")). rewrite Hh. cbn.
  rewrite count_accounts_sum by exact Hf. reflexivity.
Qed.

Lemma countRecords_uigf4_witness :
  countRecords demo_doc = Ok 1.
Proof. apply (countRecords_uigf4 _ [JObj [("uid", JStr "100000001");
                             ("list", JArr [JObj [("id", JStr "1"); ("gacha_type", JStr "301")]])]]).
  - reflexivity.
  - repeat constructor; discriminate.
Defined.

(** ** The Apps Script endpoint *)

Module ServerProps.
Import AppsScript.

Lemma js_strict_eq_str (a : jval) (t : string) : js_strict_eq a (JStr t) = true -> a = JStr t.
Proof. destruct a; simpl; try discriminate. intros H. apply String.eqb_eq in H. subst; reflexivity. Qed.

(** the state after uploadData *)
Lemma uploadData_state (req : jval) (s : gs_state) :
  snd (uploadData req s) = s \/
  exists content,
    snd (uploadData req s) =
    match data_file s with
    | Some f => set_file (Some (DriveFile content (gs_now s) (f_id f)))
                         (snd (createBackupOfFile f s))
    | None => set_file (Some (DriveFile content (gs_now s) (new_id s))) s
    end.
Proof.
  unfold uploadData.
  destruct (js_get req "schemaVersion") as [sv|e]; [|left; reflexivity].
  destruct (truthy sv && js_gt_num sv CURRENT_SCHEMA_VERSION); [left; reflexivity|].
  destruct (js_get req "payload") as [p|e]; [|left; reflexivity].
  destruct (negb (truthy p)); [left; reflexivity|].
  match goal with |- context [match ?m with Ok _ => _ | Err _ => _ end] =>
    destruct m as [p'|e] end; [|left; reflexivity].
  destruct (JSON_stringify p') as [content|]; [|left; reflexivity].
  right. exists content.
  destruct (data_file s) as [f|]; destruct (countRecords p'); reflexivity.
Qed.

Lemma createBackup_state (s : gs_state) :
  snd (createBackup s) =
  match data_file s with
  | Some f => snd (createBackupOfFile f s)
  | None => s
  end.
Proof. unfold createBackup. destruct (data_file s); reflexivity. Qed.

Lemma doPost_state (contents : string) (s : gs_state) :
  snd (doPost contents s) =
  match JSON_parse contents with
  | Err _ => s
  | Ok req => snd (dispatch req s)
  end.
Proof.
  unfold doPost. destruct (JSON_parse contents) as [req|e]; [|reflexivity].
  destruct (dispatch req s) as [[d|e] s']; reflexivity.
Qed.

(** A request to the endpoint never removes or rewrites a backup: the backup
    folder is unchanged or gains one entry, the current file's content under
    the name [createBackupOfFile] gives. *)
Theorem doPost_backups_append_only (contents : string) (s : gs_state) :
  backups (snd (doPost contents s)) = backups s \/
  exists f, data_file s = Some f /\
            backups (snd (doPost contents s))
            = backups s ++ [(fst (createBackupOfFile f s), f_content f)].
Proof.
  rewrite doPost_state. destruct (JSON_parse contents) as [req|e]; [|left; reflexivity].
  unfold dispatch. destruct (js_get req "action") as [action|e]; [|left; reflexivity].
  destruct (js_strict_eq action (JStr "metadata")); [left; reflexivity|].
  destruct (js_strict_eq action (JStr "upload")).
  - destruct (uploadData_state req s) as [->|[content ->]]; [left; reflexivity|].
    destruct (data_file s) as [f|]; [right; exists f; split; reflexivity|left; reflexivity].
  - destruct (js_strict_eq action (JStr "download")); [left; reflexivity|].
    destruct (js_strict_eq action (JStr "backup")).
    + rewrite createBackup_state.
      destruct (data_file s) as [f|]; [right; exists f; split; reflexivity|left; reflexivity].
    + left; reflexivity.
Qed.

(** A request whose action is neither [upload] nor [backup] (or that does not
    parse) leaves the Drive state unchanged. *)
Theorem doPost_read_only (contents : string) (s : gs_state) :
  (forall req, JSON_parse contents = Ok req ->
     jget req "action" <> JStr "upload" /\ jget req "action" <> JStr "backup") ->
  snd (doPost contents s) = s.
Proof.
  intros Hrw. rewrite doPost_state. destruct (JSON_parse contents) as [req|e]; [|reflexivity].
  destruct (Hrw req eq_refl) as [Hup Hbk].
  unfold dispatch. destruct (js_get req "action") as [action|e] eqn:Ea; [|reflexivity].
  assert (Hj : jget req "action" = action) by (unfold jget; rewrite Ea; reflexivity).
  destruct (js_strict_eq action (JStr "metadata")); [reflexivity|].
  destruct (js_strict_eq action (JStr "upload")) eqn:Eu.
  { apply js_strict_eq_str in Eu. congruence. }
  destruct (js_strict_eq action (JStr "download")); [reflexivity|].
  destruct (js_strict_eq action (JStr "backup")) eqn:Eb; [|reflexivity].
  apply js_strict_eq_str in Eb. congruence.
Qed.


Lemma jget_obj (l : list (string * jval)) (k : string) :
  jget (JObj l) k = match assoc_get k l with Some x => x | None => JUndef end.
Proof. reflexivity. Qed.

(** The [status: "ok"] reply of [uploadData] describes the file it stored: its
    [cloudHash] is the hash of the stored text, its [cloudTimestamp] and
    [fileId] are the file's. *)
Theorem uploadData_reply_matches_file (req : jval) (s : gs_state) (r : jval) :
  fst (uploadData req s) = Ok r -> jget r "status" = JStr "ok" ->
  exists f, data_file (snd (uploadData req s)) = Some f /\
    jget r "cloudHash" = JStr (gs_calculateHash (f_content f)) /\
    jget r "cloudTimestamp" = JNum (f_updated f) /\
    jget r "fileId" = JStr (f_id f).
Proof.
  unfold uploadData.
  destruct (js_get req "schemaVersion") as [sv|e]; [|discriminate].
  destruct (truthy sv && js_gt_num sv CURRENT_SCHEMA_VERSION);
    [intros H; injection H as <-; discriminate|].
  destruct (js_get req "payload") as [p|e]; [|discriminate].
  destruct (negb (truthy p)); [intros H; injection H as <-; discriminate|].
  match goal with |- context [match ?m with Ok _ => _ | Err _ => _ end] =>
    destruct m as [p'|e] end; [|discriminate].
  destruct (JSON_stringify p') as [content|]; [|discriminate].
  destruct (countRecords p') as [rc|e]; [|discriminate].
  cbn [fst snd]. intros H _. injection H as <-.
  destruct (data_file s) as [ex|]; eexists; repeat split.
Qed.


(** When the data file exists, [downloadData] and [getMetadata] agree: both
    fail with the same error, or both succeed with the same hash, timestamp,
    record count and schema version. *)
Theorem download_matches_metadata (s : gs_state) (f : drive_file) :
  data_file s = Some f ->
  match getMetadata s, downloadData s with
  | Ok m, Ok d =>
      jget d "status" = JStr "ok" /\
      jget d "cloudHash" = jget m "cloudHash" /\
      jget d "cloudTimestamp" = jget m "cloudTimestamp" /\
      jget d "recordCount" = jget m "recordCount" /\
      jget d "schemaVersion" = jget m "schemaVersion"
  | Err e1, Err e2 => e1 = e2
  | _, _ => False
  end.
Proof.
  intros Hf. unfold getMetadata, downloadData. rewrite Hf.
  destruct (JSON_parse (f_content f)) as [x|e]; cbn [rbind]; [|reflexivity].
  destruct (countRecords x) as [rc|e]; cbn [rbind]; [|reflexivity].
  destruct (js_get x "_schemaVersion") as [sv|e]; cbn [rbind]; [|reflexivity].
  repeat split.
Qed.


(** The text the endpoint stores for an uploaded document (which has no
    [_schemaVersion] of its own) is never the client's JSON text of that
    document: the stored object carries the provenance fields. This holds
    also when [countRecords] then throws, as the file is written first. *)
Theorem uploaded_text_differs (l : list (string * jval)) (av cid dh : string) (ts : Z)
        (s : gs_state) (t : string) :
  wfb (JObj l) = true ->
  assoc_get "_schemaVersion" l = None ->
  JSON_stringify (JObj l) = Some t ->
  exists f, data_file (snd (remote (upload_request av cid dh ts (JObj l)) s)) = Some f /\
            f_content f <> t.
Proof.
  intros Hw Hnone Ht.
  assert (Hwr : wfb (upload_request av cid dh ts (JObj l)) = true).
  { unfold upload_request. remember (JObj l) as D eqn:ED. simpl. rewrite Hw. reflexivity. }
  destruct (stringify_some _ Hwr) as [b Hb].
  set (l4 := assoc_set "_appVersion" (js_or (JStr av) (JStr "unknown"))
               (assoc_set "_clientId" (js_or (JStr cid) (JStr "unknown"))
                  (assoc_set "_uploadTimestamp" (JNum (gs_now s))
                     (assoc_set "_schemaVersion" (JNum CURRENT_SCHEMA_VERSION) l)))).
  assert (Hw4 : wfb (JObj l4) = true).
  { unfold l4. repeat apply wfb_set; try apply wfb_js_or_str; try reflexivity. exact Hw. }
  destruct (stringify_some _ Hw4) as [content Hcontent].
  assert (Hcount : countRecords (JObj l4) = countRecords (JObj l)).
  { unfold l4. rewrite !countRecords_set by reflexivity. reflexivity. }
  assert (Hsv : assoc_get "_schemaVersion" l4 = Some (JNum CURRENT_SCHEMA_VERSION)).
  { unfold l4. rewrite !assoc_get_set_other by reflexivity. apply assoc_get_set_same. }
  assert (Hne : content <> t).
  { intros ->. pose proof (JSON_parse_stringify _ _ Hw4 Hcontent) as P4.
    rewrite (JSON_parse_stringify _ _ Hw Ht) in P4. injection P4 as P4.
    rewrite <- P4, Hnone in Hsv. discriminate. }
  clear Hsv.
  unfold remote, doPost.
  rewrite Hb, (JSON_parse_stringify _ _ Hwr Hb).
  unfold dispatch, uploadData.
  with_strategy opaque [JSON_stringify countRecords gs_calculateHash assoc_set] cbn.
  fold l4. rewrite Hcontent, Hcount.
  destruct (countRecords (JObj l)); cbv beta iota;
    match goal with |- context [jsonResponse ?d] =>
      rewrite (reply_parse d) by reflexivity end;
    destruct (data_file s); eexists; (split; [reflexivity|exact Hne]).
Qed.

(** A successful upload keeps the previous version: an existing file is
    overwritten in place (same id) after its content is copied to the backup
    folder; with no file, one is created with the new id and no backup. *)
Theorem uploadData_keeps_previous (req : jval) (s : gs_state) (r : jval) :
  fst (uploadData req s) = Ok r -> jget r "status" = JStr "ok" ->
  exists f', data_file (snd (uploadData req s)) = Some f' /\ f_updated f' = gs_now s /\
    match data_file s with
    | Some f => f_id f' = f_id f /\
        backups (snd (uploadData req s)) = backups s ++ [(fst (createBackupOfFile f s), f_content f)]
    | None => f_id f' = new_id s /\ backups (snd (uploadData req s)) = backups s
    end.
Proof.
  unfold uploadData.
  destruct (js_get req "schemaVersion") as [sv|e]; [|discriminate].
  destruct (truthy sv && js_gt_num sv CURRENT_SCHEMA_VERSION);
    [intros H; injection H as <-; discriminate|].
  destruct (js_get req "payload") as [p|e]; [|discriminate].
  destruct (negb (truthy p)); [intros H; injection H as <-; discriminate|].
  match goal with |- context [match ?m with Ok _ => _ | Err _ => _ end] =>
    destruct m as [p'|e] end; [|discriminate].
  destruct (JSON_stringify p') as [content|]; [|discriminate].
  destruct (countRecords p') as [rc|e]; [|discriminate].
  intros _ _.
  destruct (data_file s) as [f|] eqn:Ef; eexists; cbn;
    (split; [reflexivity|]); (split; [reflexivity|]); rewrite ?Ef; split; reflexivity.
Qed.

Lemma doPost_read_only_witness :
  snd (doPost (jsonResponse download_request) drive_with_file) = drive_with_file.
Proof.
  apply doPost_read_only. intros req H. vm_compute in H. injection H as <-.
  split; discriminate.
Defined.

Lemma uploadData_reply_matches_file_witness :
  exists f, data_file (snd (uploadData demo_upload drive_with_file)) = Some f /\
    jget demo_upload_reply "cloudHash" = JStr (gs_calculateHash (f_content f)) /\
    jget demo_upload_reply "cloudTimestamp" = JNum (f_updated f) /\
    jget demo_upload_reply "fileId" = JStr (f_id f).
Proof. apply uploadData_reply_matches_file; vm_compute; reflexivity. Defined.

Lemma uploadData_keeps_previous_witness :
  exists f', data_file (snd (uploadData demo_upload drive_with_file)) = Some f' /\
    f_updated f' = gs_now drive_with_file /\
    match data_file drive_with_file with
    | Some f => f_id f' = f_id f /\
        backups (snd (uploadData demo_upload drive_with_file))
        = backups drive_with_file ++ [(fst (createBackupOfFile f drive_with_file), f_content f)]
    | None => f_id f' = new_id drive_with_file /\
        backups (snd (uploadData demo_upload drive_with_file)) = backups drive_with_file
    end.
Proof. apply (uploadData_keeps_previous _ _ demo_upload_reply); vm_compute; reflexivity. Defined.

Lemma download_matches_metadata_witness :
  match getMetadata drive_with_file, downloadData drive_with_file with
  | Ok m, Ok d =>
      jget d "status" = JStr "ok" /\
      jget d "cloudHash" = jget m "cloudHash" /\
      jget d "cloudTimestamp" = jget m "cloudTimestamp" /\
      jget d "recordCount" = jget m "recordCount" /\
      jget d "schemaVersion" = jget m "schemaVersion"
  | Err e1, Err e2 => e1 = e2
  | _, _ => False
  end.
Proof.
  apply (download_matches_metadata _ (DriveFile (jsonResponse demo_doc) 1690000000000 "file-1")).
  reflexivity.
Defined.

Lemma uploaded_text_differs_witness :
  exists f, data_file (snd (remote demo_upload drive_with_file)) = Some f /\
            f_content f <> jsonResponse demo_doc.
Proof.
  apply (uploaded_text_differs _ "1.0.0" "client-1" "h" 0 drive_with_file (jsonResponse demo_doc));
    vm_compute; reflexivity.
Defined.

End ServerProps.

(** ** The legacy OAuth Drive module *)

Module LegacyProps.
Import DriveOAuth.

Lemma uploadFile_step (k : nat) (w : oworld) :
  uploadFile (S k) w =
  match getDriveClient w with
  | GErr e => Some (GErr e, w)
  | GOk _ =>
  match o_gen30 w with
  | Err e => Some (GErr (plain e), w)
  | Ok data =>
  match data_uid data with
  | Err e => Some (GErr (plain e), w)
  | Ok uid =>
  match upload_attempt (upload_file_of data uid) w with
  | (GOk r, w1) => Some (GOk r, w1)
  | (GErr err, w1) =>
      if js_strict_eq (g_code err) (JNum 404)
         && negb (String.eqb (googleDriveFileId w1) EmptyString)
      then uploadFile k (set_fileId EmptyString w1)
      else Some (GErr err, w1)
  end
  end
  end
  end.
Proof. reflexivity. Qed.

Lemma attempt_err_state (f : dfile) (w w1 : oworld) (e : gerror) :
  upload_attempt f w = (GErr e, w1) -> w1 = w.
Proof.
  unfold upload_attempt, files_update, files_create.
  destruct (negb _); destruct (drive_outage w); try (intros H; injection H as _ <-; reflexivity).
  - destruct (file_find _ _); [discriminate|]. intros H; injection H as _ <-; reflexivity.
  - discriminate.
Qed.

Lemma attempt_empty_no_404_retry (f : dfile) (w w1 : oworld) (e : gerror) :
  googleDriveFileId w = EmptyString -> upload_attempt f w = (GErr e, w1) ->
  googleDriveFileId w1 = EmptyString.
Proof. intros H E. rewrite (attempt_err_state f w w1 e E). exact H. Qed.

Lemma uploadFile_empty_id (n : nat) (w : oworld) :
  googleDriveFileId w = EmptyString -> uploadFile (S n) w = uploadFile 1 w.
Proof.
  intros H. rewrite !uploadFile_step.
  destruct (getDriveClient w); [|reflexivity].
  destruct (o_gen30 w) as [data|e]; [|reflexivity].
  destruct (data_uid data) as [uid|e]; [|reflexivity].
  destruct (upload_attempt (upload_file_of data uid) w) as [[r|err] w1] eqn:E; [reflexivity|].
  rewrite (attempt_empty_no_404_retry _ _ _ _ H E). cbn.
  rewrite andb_false_r. reflexivity.
Qed.

(** [uploadFile] calls itself at most once (after a 404 it clears the id, so
    the second level creates a file): two levels decide every run. *)
Theorem uploadFile_settles (w : oworld) (n : nat) :
  uploadFile (S (S n)) w = uploadFile 2 w /\ uploadFile 2 w <> None.
Proof.
  rewrite !uploadFile_step.
  destruct (getDriveClient w); [|split; [reflexivity|discriminate]].
  destruct (o_gen30 w) as [data|e]; [|split; [reflexivity|discriminate]].
  destruct (data_uid data) as [uid|e]; [|split; [reflexivity|discriminate]].
  destruct (upload_attempt (upload_file_of data uid) w) as [[r|err] w1] eqn:E;
    [split; [reflexivity|discriminate]|].
  destruct (js_strict_eq (g_code err) (JNum 404) && negb (String.eqb (googleDriveFileId w1) EmptyString));
    [|split; [reflexivity|discriminate]].
  rewrite (uploadFile_empty_id n (set_fileId EmptyString w1) eq_refl).
  split; [reflexivity|].
  rewrite uploadFile_step.
  destruct (getDriveClient _); [|discriminate].
  destruct (o_gen30 _) as [d|e]; [|discriminate].
  destruct (data_uid d) as [u|e]; [|discriminate].
  destruct (upload_attempt (upload_file_of d u) (set_fileId EmptyString w1))
    as [[r|err'] w2] eqn:E2; [discriminate|].
  rewrite (attempt_empty_no_404_retry _ (set_fileId EmptyString w1) _ _ eq_refl E2). cbn.
  rewrite andb_false_r. discriminate.
Qed.


Lemma getDriveClient_set_fileId (id : string) (w : oworld) :
  getDriveClient (set_fileId id w) = getDriveClient w.
Proof. reflexivity. Qed.

Lemma file_find_put_same (id : string) (f : dfile) (fs : list (string * dfile)) :
  file_find id fs <> None -> file_find id (file_put id f fs) = Some f.
Proof.
  induction fs as [|[i g] t IH]; simpl; [contradiction|].
  destruct (String.eqb id i) eqn:E; simpl; rewrite E; [reflexivity|exact IH].
Qed.

Lemma file_find_app_fresh (id : string) (f : dfile) (fs : list (string * dfile)) :
  file_find id fs = None -> file_find id (fs ++ [(id, f)]) = Some f.
Proof.
  induction fs as [|[i g] t IH]; simpl.
  - rewrite String.eqb_refl. reflexivity.
  - destruct (String.eqb id i); [discriminate|exact IH].
Qed.

Lemma drive_id_nonempty (n : nat) : drive_id n <> EmptyString.
Proof. discriminate. Qed.

Lemma uploadFile_success (n : nat) (w w1 : oworld) (r : string) :
  file_find (drive_id (drive_next w)) (drive_files w) = None ->
  uploadFile n w = Some (GOk r, w1) ->
  exists data uid, o_gen30 w = Ok data /\ data_uid data = Ok uid /\
    googleDriveFileId w1 <> EmptyString /\
    file_find (googleDriveFileId w1) (drive_files w1) = Some (upload_file_of data uid) /\
    getDriveClient w1 = GOk tt /\ drive_outage w1 = None /\
    o_import_fails w1 = o_import_fails w.
Proof.
  revert w. induction n as [|n IH]; intros w Hfresh; [discriminate|].
  rewrite uploadFile_step.
  destruct (getDriveClient w) as [[]|e] eqn:Ea; [|discriminate].
  destruct (o_gen30 w) as [data|e] eqn:Eg; [|discriminate].
  destruct (data_uid data) as [uid|e] eqn:Eu; [|discriminate].
  destruct (upload_attempt (upload_file_of data uid) w) as [[r'|err] w2] eqn:E.
  - intros H. injection H as <- <-.
    exists data, uid. split; [reflexivity|]. split; [exact Eu|].
    revert E. unfold upload_attempt, files_update, files_create.
    destruct (String.eqb (googleDriveFileId w) EmptyString) eqn:Ei; cbn [negb].
    + destruct (drive_outage w) as [e|] eqn:Eo; [discriminate|].
      intros H; injection H as _ <-. cbn.
      split; [apply drive_id_nonempty|].
      split; [apply file_find_app_fresh, Hfresh|].
      split; [exact Ea|]. split; [exact Eo|reflexivity].
    + destruct (drive_outage w) as [e|] eqn:Eo; [discriminate|].
      destruct (file_find (googleDriveFileId w) (drive_files w)) as [g|] eqn:Ef; [|discriminate].
      intros H; injection H as _ <-. cbn.
      split; [apply String.eqb_neq, Ei|].
      split; [apply file_find_put_same; rewrite Ef; discriminate|].
      split; [exact Ea|]. split; [exact Eo|reflexivity].
  - rewrite (attempt_err_state _ _ _ _ E).
    destruct (_ && _); [|discriminate].
    intros H. destruct (IH (set_fileId EmptyString w) Hfresh H)
      as (d & u & Hg & Hu & Hid & Hf & Ha & Ho & Hi).
    cbn in Hg. rewrite Eg in Hg. injection Hg as <-. rewrite Eu in Hu. injection Hu as <-.
    exists data, uid. repeat split; assumption.
Qed.

(** Once [uploadFile] has succeeded for a generated object whose [info] and
    [list] are truthy, [downloadFile] reads that file back and imports the
    same object. *)
Theorem upload_then_download (w w1 : oworld) (r : string) (l : list (string * jval)) :
  file_find (drive_id (drive_next w)) (drive_files w) = None ->
  o_gen30 w = Ok (JObj l) -> wfb (JObj l) = true ->
  truthy (jget (JObj l) "info") = true -> truthy (jget (JObj l) "list") = true ->
  o_import_fails w (JObj l) = None ->
  uploadFile 2 w = Some (GOk r, w1) ->
  downloadFile w1 = (GOk "success", oemit (OvImport30 (JObj l)) w1).
Proof.
  intros Hfresh Hg Hw Hinfo Hlist Himp Hup.
  destruct (uploadFile_success 2 w w1 r Hfresh Hup)
    as (data & uid & Hg' & Hu & Hid & Hf & Ha & Ho & Hi).
  rewrite Hg in Hg'. injection Hg' as <-.
  destruct (stringify_some _ Hw) as [t Ht].
  unfold downloadFile. rewrite Ha.
  apply String.eqb_neq in Hid. rewrite Hid.
  unfold files_get. rewrite Ho, Hf. cbn [d_body upload_file_of].
  rewrite Ht. unfold media_data. rewrite (JSON_parse_stringify _ _ Hw Ht).
  cbn [truthy]. rewrite Hinfo, Hlist. cbn [andb].
  rewrite Hi, Himp. reflexivity.
Qed.

(** A stale [googleDriveFileId] (the file is gone): the update fails with
    404, the id is cleared and the second level creates a new file whose id
    is saved. *)
Theorem uploadFile_replaces_stale_id (w : oworld) (data uid : jval) :
  getDriveClient w = GOk tt -> o_gen30 w = Ok data -> data_uid data = Ok uid ->
  drive_outage w = None -> googleDriveFileId w <> EmptyString ->
  file_find (googleDriveFileId w) (drive_files w) = None ->
  exists w1, uploadFile 2 w = Some (GOk "success", w1) /\
    googleDriveFileId w1 = drive_id (drive_next w) /\
    drive_files w1 = drive_files w ++ [(drive_id (drive_next w), upload_file_of data uid)] /\
    o_trace w1 = o_trace w ++ [OvCreate (drive_id (drive_next w)); OvSaveConfig].
Proof.
  intros Ha Hg Hu Ho Hid Hf.
  rewrite uploadFile_step, Ha, Hg, Hu.
  unfold upload_attempt at 1. apply String.eqb_neq in Hid. rewrite Hid. cbn [negb].
  unfold files_update. rewrite Ho, Hf. cbn [g_code not_found js_strict_eq].
  rewrite Z.eqb_refl, Hid. cbn [andb negb].
  rewrite uploadFile_step, getDriveClient_set_fileId, Ha. cbn [o_gen30 set_fileId].
  rewrite Hg, Hu.
  unfold upload_attempt, files_create. cbn [googleDriveFileId set_fileId drive_outage].
  rewrite Ho. cbn [String.eqb negb].
  eexists. split; [reflexivity|]. cbn.
  split; [reflexivity|]. split; [reflexivity|].
  rewrite <- app_assoc. reflexivity.
Qed.

Lemma uploadFile_replaces_stale_id_witness :
  exists w1, uploadFile 2 legacy_world = Some (GOk "success", w1) /\
    googleDriveFileId w1 = "file-0" /\
    drive_files w1 = [("file-0", upload_file_of legacy_doc (JStr "100000001"))] /\
    o_trace w1 = [OvCreate "file-0"; OvSaveConfig].
Proof.
  apply (uploadFile_replaces_stale_id legacy_world legacy_doc (JStr "100000001"));
    try reflexivity; discriminate.
Defined.

Lemma upload_then_download_witness :
  downloadFile legacy_after_upload = (GOk "success", oemit (OvImport30 legacy_doc) legacy_after_upload).
Proof.
  apply (upload_then_download legacy_world legacy_after_upload "success"); vm_compute; reflexivity.
Defined.

End LegacyProps.
